(** * DataBatcher: the batching queue of the SEO data SDK

    A shallow embedding of [src/core/DataBatcher.js] (and of the lines of
    [src/index.js] that construct the batcher), followed by the properties of
    the queue: the flush guard, the re-queue policy after a failed send, the
    capacity trigger of [add], degraded delivery without a backend, and what
    [clear] and [destroy] leave behind.

    The class is written against a single-threaded event loop.  A call of the
    async method [flush] runs synchronously up to [await this.sendBatch(batch)]
    and is then parked; it resumes when the awaited promise settles.  The
    embedding splits [flush] at that point: [flush] is the synchronous part
    and [flush_resume] the continuation, and the parked activations are kept
    in the [suspended] component of the world so that any interleaving of
    further calls with the settlement of a send can be written as a list of
    [Action]s. *)

From Stdlib Require Import ZArith Lia.
From stdpp Require Import base gmap strings list pretty.

(** ** JavaScript values *)

Module JS.

Definition loc := positive.

(** Primitive values and references.  Numbers are the integer-valued ones
    (which is what [Date.now()] returns) and [NaN]; every other double is
    truthy and spreads to nothing, like a non-zero [VNum]. *)
Inductive value :=
| VUndefined
| VNull
| VBool (b : bool)
| VNum (n : Z)
| VNaN
| VStr (s : string)
| VObj (l : loc)
| VFun (l : loc).

(** [ToBoolean]: what [!v], [v || d] and [if (v)] test. *)
Definition truthy (v : value) : bool :=
  match v with
  | VUndefined | VNull | VNaN => false
  | VBool b => b
  | VNum n => negb (n =? 0)%Z
  | VStr s => match s with EmptyString => false | String _ _ => true end
  | VObj _ | VFun _ => true
  end.

(** [typeof v === 'function'] *)
Definition is_function (v : value) : bool :=
  match v with VFun _ => true | _ => false end.

(** [a || b] *)
Definition or_else (a b : value) : value := if truthy a then a else b.

(** [v !== false] *)
Definition not_false (v : value) : value :=
  match v with VBool false => VBool false | _ => VBool true end.

(** A default parameter [x = d] takes [d] exactly when [undefined] is passed. *)
Definition default_param (d v : value) : value :=
  match v with VUndefined => d | _ => v end.

(** The own enumerable properties of a string: its characters under their
    indices. *)
Fixpoint string_props (i : nat) (s : string) : gmap string value :=
  match s with
  | EmptyString => ∅
  | String c s' => <[pretty i := VStr (String c EmptyString)]> (string_props (S i) s')
  end.

(** What [{...v}] copies: the own enumerable properties of [v].  Objects,
    arrays and functions live in the heap, each as the map of its own
    enumerable properties. *)
Definition own_props (h : gmap loc (gmap string value)) (v : value) : gmap string value :=
  match v with
  | VObj l | VFun l => default ∅ (h !! l)
  | VStr s => string_props 0 s
  | _ => ∅
  end.

(** [o.k] on a plain object *)
Definition get (k : string) (o : gmap string value) : value :=
  default VUndefined (o !! k).

(** [Array.prototype.slice(start)]: a negative [start] counts from the end,
    and both directions are clamped to the array. *)
Definition slice {A} (start : Z) (l : list A) : list A :=
  let len := Z.of_nat (length l) in
  let k := if (start <? 0)%Z then Z.max (len + start) 0 else Z.min start len in
  drop (Z.to_nat k) l.

(** [JSON.stringify] walks the own enumerable properties of an object and of
    the objects these hold, and throws a [TypeError] when it comes back to
    an object it is still serializing.  Functions and primitive values are
    leaves; an object with a [toJSON] method is replaced by what that method
    returns, which the heap does not show.  [nested n h v]: the walk from
    [v] goes [n] objects deeper. *)
Fixpoint nested (n : nat) (h : gmap loc (gmap string value)) (v : value) : bool :=
  match v with
  | VObj l =>
      match h !! l with
      | Some o =>
          if is_function (get "toJSON" o) then false
          else match n with
               | O => true
               | S n' => existsb (nested n' h) (map snd (map_to_list o))
               end
      | None => false
      end
  | _ => false
  end.

(** The walk from [v] meets an object twice on one path: it goes deeper
    than the heap has objects. *)
Definition circular (h : gmap loc (gmap string value)) (v : value) : bool :=
  nested (size h) h v.

End JS.

Import JS.

(** ** The batcher and the world it runs in *)

(** The object [{events, batchSize, timestamp}] handed to the transport. *)
Record Payload := {
  events : list value;
  batchSize : nat;
  timestamp : Z
}.

(** What the class does to the outside, in program order: a call of
    [sendBatch] with its payload, the callback or [fetch] being called, and
    the lines written to the console. *)
Inductive Effect :=
| SendBatch (p : Payload)
| CallbackCall (f : value) (p : Payload)
| FetchPost (endpoint key : value) (p : Payload)
| ConsoleLog (msg : string)
| ConsoleError (msg : string).

(** The fields of [this]. *)
Record DataBatcher := {
  apiEndpoint : value;
  apiKey : value;
  batchInterval : value;
  queue : list value;
  maxQueueSize : Z;
  isProcessing : bool;
  onDataCallback : value;
  interval : option positive
}.

(** The promise returned by [sendBatch] at the moment [flush] awaits it. *)
Inductive SendState :=
| Fulfilled
| Rejected
| AwaitingCallback
| AwaitingFetch.

(** An activation of [flush] parked at [await this.sendBatch(batch)]: its
    local [batch] and the promise it waits for.  The transport receives
    [batch] inside the payload and is taken not to write to it. *)
Record Suspended := {
  batch : list value;
  awaiting : SendState
}.

(** The batcher together with the parts of the host it touches: the object
    heap, the table of [setInterval] registrations (handle to delay), the
    number of [beforeunload] listeners it registered, the parked [flush]
    activations and the effects so far. *)
Record World := {
  this : DataBatcher;
  heap : gmap loc (gmap string value);
  timers : gmap positive value;
  next_timer : positive;
  unload_listeners : nat;
  suspended : list Suspended;
  trace : list Effect
}.

(** What a synchronous run of [flush] reads from the host: the clock at
    [Date.now()] in [sendBatch], whether the callback, if it is called now,
    throws instead of returning, and whether [JSON.stringify], if it is
    called now, throws for a reason the heap does not show (a [toJSON]
    method or a getter that throws, a [BigInt]). *)
Record Sync := {
  date_now : Z;
  callback_throws : bool;
  stringify_fails : bool
}.

(** How a pending send ends: the callback's promise, the [fetch] promise,
    [response.ok] and the [response.json()] promise. *)
Record Outcome := {
  callback_fulfils : bool;
  fetch_fulfils : bool;
  response_ok : bool;
  json_fulfils : bool
}.

Definition set_queue (q : list value) (b : DataBatcher) : DataBatcher :=
  {| apiEndpoint := apiEndpoint b; apiKey := apiKey b; batchInterval := batchInterval b;
     queue := q; maxQueueSize := maxQueueSize b; isProcessing := isProcessing b;
     onDataCallback := onDataCallback b; interval := interval b |}.

Definition set_isProcessing (p : bool) (b : DataBatcher) : DataBatcher :=
  {| apiEndpoint := apiEndpoint b; apiKey := apiKey b; batchInterval := batchInterval b;
     queue := queue b; maxQueueSize := maxQueueSize b; isProcessing := p;
     onDataCallback := onDataCallback b; interval := interval b |}.

Definition set_interval (i : option positive) (b : DataBatcher) : DataBatcher :=
  {| apiEndpoint := apiEndpoint b; apiKey := apiKey b; batchInterval := batchInterval b;
     queue := queue b; maxQueueSize := maxQueueSize b; isProcessing := isProcessing b;
     onDataCallback := onDataCallback b; interval := i |}.

Definition with_this (f : DataBatcher -> DataBatcher) (w : World) : World :=
  {| this := f (this w); heap := heap w; timers := timers w; next_timer := next_timer w;
     unload_listeners := unload_listeners w; suspended := suspended w; trace := trace w |}.

Definition with_heap (h : gmap loc (gmap string value)) (w : World) : World :=
  {| this := this w; heap := h; timers := timers w; next_timer := next_timer w;
     unload_listeners := unload_listeners w; suspended := suspended w; trace := trace w |}.

Definition with_timers (t : gmap positive value) (n : positive) (w : World) : World :=
  {| this := this w; heap := heap w; timers := t; next_timer := n;
     unload_listeners := unload_listeners w; suspended := suspended w; trace := trace w |}.

Definition with_unload_listeners (n : nat) (w : World) : World :=
  {| this := this w; heap := heap w; timers := timers w; next_timer := next_timer w;
     unload_listeners := n; suspended := suspended w; trace := trace w |}.

Definition with_suspended (k : list Suspended) (w : World) : World :=
  {| this := this w; heap := heap w; timers := timers w; next_timer := next_timer w;
     unload_listeners := unload_listeners w; suspended := k; trace := trace w |}.

Definition emit (es : list Effect) (w : World) : World :=
  {| this := this w; heap := heap w; timers := timers w; next_timer := next_timer w;
     unload_listeners := unload_listeners w; suspended := suspended w; trace := trace w ++ es |}.

(** ** The methods of the class *)

(** [JSON.stringify(payload)] throws: an event of the batch is circular, or
    the host says so.  (The payload object and its array are new, so a cycle
    goes through an event.) *)
Definition JSON_stringify_throws (e : Sync) (h : gmap loc (gmap string value))
    (b : list value) : bool :=
  existsb (circular h) b || stringify_fails e.

(** [sendBatch], up to its first suspension.  The callback and [fetch] are
    called before [sendBatch] returns its promise; without a callback and
    without an endpoint the promise is already fulfilled.  The argument of
    [fetch] is evaluated before [fetch] is called: when
    [JSON.stringify(payload)] throws, [fetch] is not called and the promise
    of [sendBatch] is rejected. *)
Definition sendBatch (e : Sync) (b : list value) (w : World) : World * SendState :=
  let payload := {| events := b; batchSize := length b; timestamp := date_now e |} in
  let w := emit [SendBatch payload] w in
  let cb := onDataCallback (this w) in
  if truthy cb && is_function cb then
    let w := emit [CallbackCall cb payload] w in
    if callback_throws e
    then (emit [ConsoleError "[Data Batcher] Callback error:"] w, Rejected)
    else (w, AwaitingCallback)
  else if negb (truthy (apiEndpoint (this w))) then
    (emit [ConsoleLog "[Data Batcher] No endpoint or callback configured"] w, Fulfilled)
  else if JSON_stringify_throws e (heap w) b then (w, Rejected)
  else
    (emit [FetchPost (apiEndpoint (this w)) (apiKey (this w)) payload] w, AwaitingFetch).

(** The rest of [sendBatch] once the promise it awaits has settled: the
    effects it adds and whether its own promise fulfils. *)
Definition sendBatch_settle (st : SendState) (o : Outcome) : list Effect * bool :=
  match st with
  | Fulfilled => ([], true)
  | Rejected => ([], false)
  | AwaitingCallback =>
      if callback_fulfils o
      then ([ConsoleLog "[Data Batcher] Data sent to custom callback"], true)
      else ([ConsoleError "[Data Batcher] Callback error:"], false)
  | AwaitingFetch =>
      if fetch_fulfils o
      then (if response_ok o then ([], json_fulfils o) else ([], false))
      else ([], false)
  end.

(** [flush], up to [await this.sendBatch(batch)]. *)
Definition flush (e : Sync) (w : World) : World :=
  if (length (queue (this w)) =? 0)%nat || isProcessing (this w) then w
  else
    let w := with_this (set_isProcessing true) w in
    let b := queue (this w) in
    let w := with_this (set_queue []) w in
    let '(w, st) := sendBatch e b w in
    with_suspended (suspended w ++ [{| batch := b; awaiting := st |}]) w.

(** [-this.maxQueueSize / 2] as [slice] reads it: truncated towards zero. *)
Definition requeue_start (m : Z) : Z := Z.quot (- m) 2.

(** The [catch] block of [flush]. *)
Definition requeue (b : list value) (w : World) : World :=
  let w := emit [ConsoleError "[Data Batcher] Error sending batch:"] w in
  with_this (set_queue (slice (requeue_start (maxQueueSize (this w))) b ++ queue (this w))) w.

(** The continuation of the [i]-th parked [flush] when its send settles with
    outcome [o]: [catch] on rejection, then [finally]. *)
Definition flush_resume (i : nat) (o : Outcome) (w : World) : World :=
  match suspended w !! i with
  | None => w
  | Some k =>
      let w := with_suspended (delete i (suspended w)) w in
      let '(es, ok) := sendBatch_settle (awaiting k) o in
      let w := emit es w in
      let w := if ok then w else requeue (batch k) w in
      with_this (set_isProcessing false) w
  end.

(** [this.queue.push({...data, _timestamp: Date.now()})]: a new object with
    the own enumerable properties of [data] and the time of the call. *)
Definition queue_push (now : Z) (data : value) (w : World) : World :=
  let l := fresh (dom (heap w)) in
  let copy := <["_timestamp" := VNum now]> (own_props (heap w) data) in
  let w := with_heap (<[l := copy]> (heap w)) w in
  with_this (set_queue (queue (this w) ++ [VObj l])) w.

(** [add]: [now] is the clock read for [_timestamp]; [e] is what the
    dispatched [flush] reads, when there is one. *)
Definition add (now : Z) (e : Sync) (data : value) (w : World) : World :=
  if negb (truthy data) then w
  else
    let w := queue_push now data w in
    if (maxQueueSize (this w) <=? Z.of_nat (length (queue (this w))))%Z
    then flush e w
    else w.

Definition startBatchInterval (w : World) : World :=
  let id := next_timer w in
  let w := with_timers (<[id := batchInterval (this w)]> (timers w)) (Pos.succ id) w in
  with_this (set_interval (Some id)) w.

Definition stopBatchInterval (w : World) : World :=
  match interval (this w) with
  | Some id => with_timers (delete id (timers w)) (next_timer w) w
  | None => w
  end.

(** The function given to [setInterval], run when timer [id] is due. *)
Definition interval_fires (id : positive) (e : Sync) (w : World) : World :=
  match timers w !! id with
  | Some _ => if (0 <? length (queue (this w)))%nat then flush e w else w
  | None => w
  end.

(** The [beforeunload] listener. *)
Definition beforeunload (e : Sync) (w : World) : World :=
  match unload_listeners w with
  | O => w
  | S _ => flush e w
  end.

Definition getQueueSize (w : World) : nat := length (queue (this w)).

Definition clear (w : World) : World := with_this (set_queue []) w.

Definition destroy (e : Sync) (w : World) : World := flush e (stopBatchInterval w).

(** The host a batcher is created in. *)
Record Host := {
  host_heap : gmap loc (gmap string value);
  host_window : bool;
  host_next_timer : positive
}.

Definition constructor (host : Host) (endpoint key batch_interval callback : value) : World :=
  let b := {| apiEndpoint := endpoint; apiKey := key;
              batchInterval := default_param (VNum 30000) batch_interval;
              queue := []; maxQueueSize := 50; isProcessing := false;
              onDataCallback := default_param VNull callback; interval := None |} in
  let w := {| this := b; heap := host_heap host; timers := ∅;
              next_timer := host_next_timer host; unload_listeners := 0;
              suspended := []; trace := [] |} in
  let w := startBatchInterval w in
  if host_window host then with_unload_listeners (S (unload_listeners w)) w else w.

(** ** The SDK's construction of its batcher ([src/index.js]) *)

(** [this.config]: the defaults, overridden by every own property of the
    caller's [config]. *)
Definition sdk_config (config : gmap string value) : gmap string value :=
  config ∪
  list_to_map [
    ("apiEndpoint", or_else (get "apiEndpoint" config) (VStr ""));
    ("apiKey", or_else (get "apiKey" config) (VStr ""));
    ("batchInterval", or_else (get "batchInterval" config) (VNum 30000));
    ("enableHeatmap", not_false (get "enableHeatmap" config));
    ("enableScrollTracking", not_false (get "enableScrollTracking" config));
    ("enableClickTracking", not_false (get "enableClickTracking" config));
    ("privacyMode", or_else (get "privacyMode" config) (VStr "opt-in"));
    ("primaryKeyword", or_else (get "primaryKeyword" config) VNull)
  ].

(** [this.dataBatcher = new DataBatcher(apiEndpoint, apiKey, batchInterval)] *)
Definition sdk_dataBatcher (host : Host) (config : gmap string value) : World :=
  let c := sdk_config config in
  constructor host (get "apiEndpoint" c) (get "apiKey" c) (get "batchInterval" c) VUndefined.

(** ** Executions *)

(** One turn of the event loop as the batcher sees it: a call of one of its
    methods, one of its registered callbacks becoming due, the settlement of
    the send that the [i]-th parked [flush] awaits, or the host writing an
    object. *)
Inductive Action :=
| Add (now : Z) (e : Sync) (data : value)
| Flush (e : Sync)
| Clear
| Destroy (e : Sync)
| StartBatchInterval
| StopBatchInterval
| IntervalFires (id : positive) (e : Sync)
| BeforeUnload (e : Sync)
| Settle (i : nat) (o : Outcome)
| HostStore (l : loc) (o : gmap string value).

Definition step (w : World) (a : Action) : World :=
  match a with
  | Add now e data => add now e data w
  | Flush e => flush e w
  | Clear => clear w
  | Destroy e => destroy e w
  | StartBatchInterval => startBatchInterval w
  | StopBatchInterval => stopBatchInterval w
  | IntervalFires id e => interval_fires id e w
  | BeforeUnload e => beforeunload e w
  | Settle i o => flush_resume i o w
  | HostStore l o => with_heap (<[l := o]> (heap w)) w
  end.

Definition run (acts : list Action) (w : World) : World := foldl step w acts.

(** The worlds a batcher can be in: those an execution reaches from a
    construction. *)
Definition reachable (w : World) : Prop :=
  exists host endpoint key batch_interval callback acts,
    w = run acts (constructor host endpoint key batch_interval callback).

(** The payloads [sendBatch] was called with, in order. *)
Definition sends (t : list Effect) : list Payload :=
  omap (fun x => match x with SendBatch p => Some p | _ => None end) t.

(** The payloads that reached a transport (the callback or [fetch]). *)
Definition transported (t : list Effect) : list Payload :=
  omap (fun x => match x with
                 | CallbackCall _ p | FetchPost _ _ p => Some p
                 | _ => None
                 end) t.

Definition errors_logged (t : list Effect) : list string :=
  omap (fun x => match x with ConsoleError m => Some m | _ => None end) t.

(** ** The synchronous part of [flush] in closed form *)

Definition flush_payload (e : Sync) (w : World) : Payload :=
  {| events := queue (this w); batchSize := length (queue (this w)); timestamp := date_now e |}.

(** The promise a [flush] of [w] parks on. *)
Definition send_state (e : Sync) (w : World) : SendState :=
  let b := this w in
  if truthy (onDataCallback b) && is_function (onDataCallback b) then
    if callback_throws e then Rejected else AwaitingCallback
  else if negb (truthy (apiEndpoint b)) then Fulfilled
  else if JSON_stringify_throws e (heap w) (queue b) then Rejected
  else AwaitingFetch.

(** The effects of [sendBatch] in [w] after it is entered with payload [p]. *)
Definition transport_effects (e : Sync) (w : World) (p : Payload) : list Effect :=
  let b := this w in
  if truthy (onDataCallback b) && is_function (onDataCallback b) then
    CallbackCall (onDataCallback b) p ::
    (if callback_throws e then [ConsoleError "[Data Batcher] Callback error:"] else [])
  else if negb (truthy (apiEndpoint b)) then
    [ConsoleLog "[Data Batcher] No endpoint or callback configured"]
  else if JSON_stringify_throws e (heap w) (events p) then []
  else [FetchPost (apiEndpoint b) (apiKey b) p].

(** A send that is parked failed: its promise rejects. *)
Definition send_fails (k : Suspended) (o : Outcome) : Prop :=
  (sendBatch_settle (awaiting k) o).2 = false.

(** The flush guard lets the call through. *)
Definition can_flush (w : World) : Prop :=
  queue (this w) <> [] /\ isProcessing (this w) = false.

(** The flag is set exactly while a [flush] is parked, and at most one is. *)
Definition one_in_flight (w : World) : Prop :=
  (isProcessing (this w) = false /\ suspended w = []) \/
  (isProcessing (this w) = true /\ exists k, suspended w = [k]).

(** The invariant of the class: the capacity is the constant of the
    constructor, and flushes do not overlap. *)
Definition batcher_inv (w : World) : Prop :=
  maxQueueSize (this w) = 50%Z /\ one_in_flight w.

(** ** Vocabulary of the statements *)

Definition add_or_flush (a : Action) : Prop :=
  match a with Add _ _ _ | Flush _ => True | _ => False end.

(** The events that the [add] calls of an execution enqueue. *)
Definition added (acts : list Action) : list value :=
  omap (fun a => match a with
                 | Add _ _ d => if truthy d then Some d else None
                 | _ => None
                 end) acts.

(** A transport (the callback or [fetch]) is configured. *)
Definition uses_transport (b : DataBatcher) : bool :=
  truthy (onDataCallback b) && is_function (onDataCallback b) || truthy (apiEndpoint b).

(** The payload of a [flush] of [w] reaches the transport: the callback is
    called whatever the payload holds, [fetch] when the payload serializes. *)
Definition reaches_transport (e : Sync) (w : World) : bool :=
  truthy (onDataCallback (this w)) && is_function (onDataCallback (this w)) ||
  truthy (apiEndpoint (this w)) && negb (JSON_stringify_throws e (heap w) (queue (this w))).

(** An "empty or absent" event in the words of the interface description:
    [undefined], [null], or an object without properties. *)
Definition empty_or_absent (h : gmap loc (gmap string value)) (v : value) : Prop :=
  v = VUndefined \/ v = VNull \/ exists l, v = VObj l /\ h !! l = Some ∅.

(** Actions that neither read nor write the timer table. *)
Definition timer_free (a : Action) : Prop :=
  match a with
  | Add _ _ _ | Flush _ | Clear | BeforeUnload _ | Settle _ _ | HostStore _ _ => True
  | Destroy _ | StartBatchInterval | StopBatchInterval | IntervalFires _ _ => False
  end.

(** One [add] call: the clock read for [_timestamp], what a dispatched
    [flush] would read, and the event. *)
Definition add_calls (calls : list (Z * Sync * value)) : list Action :=
  map (fun c => Add c.1.1 c.1.2 c.2) calls.

(** An execution in which no event is added while a flush is in flight. *)
Fixpoint calm (w : World) (acts : list Action) : Prop :=
  match acts with
  | [] => True
  | a :: rest =>
      match a with
      | Add _ _ d => truthy d = true -> isProcessing (this w) = false
      | _ => True
      end /\ calm (step w a) rest
  end.

(** ** Sample worlds *)

(** A host whose heap holds the empty object [{}] at 1, the object [{a: 1}]
    at 2 and a function at 9. *)
Definition demo_host : Host :=
  {| host_heap := {[ 1%positive := ∅; 2%positive := {[ "a" := VNum 1 ]}; 9%positive := ∅ ]};
     host_window := true;
     host_next_timer := 1%positive |}.

Definition demo_sync : Sync :=
  {| date_now := 1000; callback_throws := false; stringify_fails := false |}.

Definition all_fulfil : Outcome :=
  {| callback_fulfils := true; fetch_fulfils := true; response_ok := true; json_fulfils := true |}.

Definition callback_rejects : Outcome :=
  {| callback_fulfils := false; fetch_fulfils := true; response_ok := true; json_fulfils := true |}.

(** A batcher without endpoint and callback, and one with a callback. *)
Definition demo_plain : World :=
  constructor demo_host (VStr "") (VStr "") VUndefined VUndefined.

Definition demo_callback : World :=
  constructor demo_host (VStr "") (VStr "") VUndefined (VFun 9%positive).

(** ** Vocabulary of the further properties *)

(** The events the batcher holds: the batches of the parked flushes, then
    the queue. *)
Definition pending (w : World) : list value :=
  concat (map batch (suspended w)) ++ queue (this w).

(** The reference an action puts into the queue. *)
Definition pushed (a : Action) (w : World) : list value :=
  match a with
  | Add _ _ d => if truthy d then [VObj (fresh (dom (heap w)))] else []
  | _ => []
  end.

(** A reference to an object of heap [h]. *)
Definition ref_in (h : gmap loc (gmap string value)) (v : value) : Prop :=
  exists l, v = VObj l /\ l ∈ dom h.

(** What a payload must look like. *)
Definition well_formed (p : Payload) : Prop :=
  events p <> [] /\ batchSize p = length (events p).

(** The calls of the callback and of [fetch], in order. *)
Definition transport_calls (t : list Effect) : list Effect :=
  omap (fun x => match x with
                 | CallbackCall _ _ | FetchPost _ _ _ => Some x
                 | _ => None
                 end) t.

(** The transport call a batcher configured with [endpoint], [key] and
    [callback] makes for payload [p]; [throws]: [JSON.stringify(p)] throws. *)
Definition transport_call (endpoint key callback : value) (throws : bool) (p : Payload) :
    list Effect :=
  if truthy callback && is_function callback then [CallbackCall callback p]
  else if truthy endpoint then (if throws then [] else [FetchPost endpoint key p])
  else [].

(** The transport calls a batcher configured with [endpoint], [key] and
    [callback] makes for the payloads [ps], one after the other: the
    callback is called with each of them; otherwise [fetch] is called, once,
    for those that serialize, and nothing without an endpoint. *)
Definition delivers (endpoint key callback : value) (ps : list Payload)
    (calls : list Effect) : Prop :=
  if truthy callback && is_function callback then calls = map (CallbackCall callback) ps
  else if truthy endpoint then
    exists posted, posted `sublist_of` ps /\ calls = map (FetchPost endpoint key) posted
  else calls = [].

(** Actions other than a call of [startBatchInterval]. *)
Definition no_restart (a : Action) : Prop :=
  match a with StartBatchInterval => False | _ => True end.

(** The execution calls [stopBatchInterval] or [destroy]. *)
Definition stops (acts : list Action) : bool :=
  existsb (fun a => match a with StopBatchInterval | Destroy _ => true | _ => false end) acts.

(** Rounds of [flush] followed by the settlement of its send. *)
Definition rounds (cycles : list (Sync * Outcome)) : list Action :=
  concat (map (fun c => [Flush c.1; Settle 0 c.2]) cycles).

(** A [fetch] that resolves with a 2xx response whose body is not JSON. *)
Definition accepted_without_json : Outcome :=
  {| callback_fulfils := true; fetch_fulfils := true; response_ok := true; json_fulfils := false |}.

(** A batcher that posts to an endpoint. *)
Definition demo_fetch : World :=
  constructor demo_host (VStr "https://api.example/collect") (VStr "k") VUndefined VUndefined.

(** The batcher holds distinct heap objects (with the class invariant). *)
Definition distinct_refs (w : World) : Prop :=
  batcher_inv w /\ NoDup (pending w) /\ Forall (ref_in (heap w)) (pending w).

(** Two states of the batcher with the same transport configuration. *)
Definition same_config (b b' : DataBatcher) : Prop :=
  apiEndpoint b' = apiEndpoint b /\ apiKey b' = apiKey b /\
  onDataCallback b' = onDataCallback b.

(** An extension of the trace made by a batcher in state [b]: every payload
    is well formed and goes to the transport [b] is configured with. *)
Definition sound_extension (b : DataBatcher) (ext : list Effect) : Prop :=
  Forall well_formed (sends ext) /\
  delivers (apiEndpoint b) (apiKey b) (onDataCallback b) (sends ext) (transport_calls ext).

(** Every live timer was handed out before [next_timer]. *)
Definition timers_below (w : World) : Prop :=
  forall id, is_Some (timers w !! id) -> (id < next_timer w)%positive.

(** The defaults of the SDK's configuration ([src/index.js]). *)
Definition sdk_defaults : gmap string value :=
  list_to_map [
    ("apiEndpoint", VStr "");
    ("apiKey", VStr "");
    ("batchInterval", VNum 30000);
    ("enableHeatmap", VBool true);
    ("enableScrollTracking", VBool true);
    ("enableClickTracking", VBool true);
    ("privacyMode", VStr "opt-in");
    ("primaryKeyword", VNull)
  ].

(** ** The privacy manager ([src/core/PrivacyManager.js]) *)

Module Privacy.

(** [JSON.parse] ([None]: it throws) and [JSON.stringify] of the platform. *)
Class Json := {
  JSON_parse : string -> option value;
  JSON_stringify : value -> string
}.

(** What the class relies on: the text of a boolean is not empty and parses
    back to that boolean. *)
Class JsonBooleans (J : Json) : Prop := {
  stringify_bool_nonempty : forall b, JSON_stringify (VBool b) <> EmptyString;
  parse_stringify_bool : forall b, JSON_parse (JSON_stringify (VBool b)) = Some (VBool b)
}.

(** [localStorage]: not there at all (every access throws), or a table of
    strings whose [setItem] may throw. *)
Inductive LocalStorage :=
| Unavailable
| Available (items : gmap string string) (set_throws : bool).

(** The fields of [this]. *)
Record PrivacyManager := {
  mode : value;
  storageKey : string;
  consentGiven : value
}.

(** The manager with the storage and the console of its page. *)
Record Page := {
  manager : PrivacyManager;
  localStorage : LocalStorage;
  console : list Effect
}.

Definition set_consent (c : value) (p : Page) : Page :=
  {| manager := {| mode := mode (manager p); storageKey := storageKey (manager p);
                   consentGiven := c |};
     localStorage := localStorage p; console := console p |}.

Definition set_storage (ls : LocalStorage) (p : Page) : Page :=
  {| manager := manager p; localStorage := ls; console := console p |}.

Definition log (x : Effect) (p : Page) : Page :=
  {| manager := manager p; localStorage := localStorage p; console := console p ++ [x] |}.

(** [v === s] for a string literal [s] *)
Definition is_string (s : string) (v : value) : bool :=
  match v with VStr s' => String.eqb s' s | _ => false end.

Definition getStoredConsent `{Json} (p : Page) : value :=
  match localStorage p with
  | Unavailable => VNull
  | Available items _ =>
      match items !! storageKey (manager p) with
      | None => VNull
      | Some stored =>
          if truthy (VStr stored) then default VNull (JSON_parse stored) else VNull
      end
  end.

Definition init `{Json} (p : Page) : Page :=
  let stored := getStoredConsent p in
  match stored with
  | VNull =>
      if is_string "opt-out" (mode (manager p)) || is_string "auto" (mode (manager p))
      then set_consent (VBool true) p
      else set_consent (VBool false) p
  | _ => set_consent stored p
  end.

Definition constructor `{Json} (ls : LocalStorage) (out : list Effect) (mode_arg : value) : Page :=
  init {| manager := {| mode := default_param (VStr "opt-in") mode_arg;
                        storageKey := "seo_sdk_consent";
                        consentGiven := VBool false |};
          localStorage := ls; console := out |}.

Definition hasConsent (p : Page) : value := consentGiven (manager p).

Definition storeConsent `{Json} (consent : value) (p : Page) : Page :=
  match localStorage p with
  | Available items false =>
      set_storage (Available (<[storageKey (manager p) := JSON_stringify consent]> items) false) p
  | _ => log (ConsoleError "[Privacy Manager] Storage error:") p
  end.

Definition giveConsent `{Json} (p : Page) : Page :=
  log (ConsoleLog "[Privacy Manager] Consent given")
      (storeConsent (VBool true) (set_consent (VBool true) p)).

Definition rejectConsent `{Json} (p : Page) : Page :=
  log (ConsoleLog "[Privacy Manager] Consent rejected")
      (storeConsent (VBool false) (set_consent (VBool false) p)).

Definition optOut `{Json} (p : Page) : Page :=
  log (ConsoleLog "[Privacy Manager] Opted out")
      (storeConsent (VBool false) (set_consent (VBool false) p)).

Definition optIn `{Json} (p : Page) : Page :=
  log (ConsoleLog "[Privacy Manager] Opted in")
      (storeConsent (VBool true) (set_consent (VBool true) p)).

Definition clearConsent (p : Page) : Page :=
  match localStorage p with
  | Unavailable => log (ConsoleError "[Privacy Manager] Storage error:") p
  | Available items t =>
      set_consent (VBool false)
        (set_storage (Available (delete (storageKey (manager p)) items) t) p)
  end.

(** Nothing usable is stored under [key]: no storage, no item, an empty
    item, an item that is not JSON, or the JSON text of [null]. *)
Definition no_decision `{Json} (key : string) (ls : LocalStorage) : Prop :=
  match ls with
  | Unavailable => True
  | Available items _ =>
      match items !! key with
      | None => True
      | Some stored =>
          stored = EmptyString \/ JSON_parse stored = None \/ JSON_parse stored = Some VNull
      end
  end.

(** The consent a manager in mode [m] assumes when nothing is stored. *)
Definition mode_default (m : value) : bool :=
  is_string "opt-out" m || is_string "auto" m.

(** A JSON that knows the three literals, for the sample pages. *)
Definition literals : Json :=
  {| JSON_parse := fun s =>
       if String.eqb s "true" then Some (VBool true)
       else if String.eqb s "false" then Some (VBool false)
       else if String.eqb s "null" then Some VNull
       else None;
     JSON_stringify := fun v =>
       match v with
       | VBool true => "true"
       | VBool false => "false"
       | _ => "null"
       end |}.

End Privacy.

(** [this.privacyManager = new PrivacyManager(this.config.privacyMode)], and
    the test that lets the SDK's constructor call [init]. *)
Definition sdk_privacyManager `{Privacy.Json} (ls : Privacy.LocalStorage) (out : list Effect)
    (config : gmap string value) : Privacy.Page :=
  Privacy.constructor ls out (get "privacyMode" (sdk_config config)).

Definition sdk_starts `{Privacy.Json} (ls : Privacy.LocalStorage) (out : list Effect)
    (config : gmap string value) : bool :=
  truthy (Privacy.hasConsent (sdk_privacyManager ls out config)).

(** ** The SDK around the batcher ([src/index.js]) *)

(** The fields of the engagement tracker the SDK reads and writes
    ([src/trackers/EngagementTracker.js]): [this.data] is an object of the
    heap. *)
Record EngagementTracker := {
  tracker_data : loc;
  startTime : Z;
  isTracking : bool;
  timeInterval : option positive;
  listeners : nat
}.

(** [getData()]: writes [timeOnPage] into the tracker's data object and
    returns a new object [{engagement: this.data}]. *)
Definition getData (tr : EngagementTracker) (now : Z) (w : World) : value * World :=
  let d := tracker_data tr in
  let h := <[d := <["timeOnPage" := VNum (now - startTime tr)]> (default ∅ (heap w !! d))]>
             (heap w) in
  let l := fresh (dom h) in
  (VObj l, with_heap (<[l := {[ "engagement" := VObj d ]}]> h) w).

(** The function [startPeriodicCollection] gives to its first
    [setInterval]: [t1] is the clock in [getData], [t2] the clock for
    [timestamp], [t3] the clock in [add]. *)
Definition engagement_tick (sessionId : value) (tr : EngagementTracker) (t1 t2 t3 : Z)
    (e : Sync) (w : World) : World :=
  let '(engagementData, w) := getData tr t1 w in
  if truthy engagementData && (0 <? size (own_props (heap w) engagementData))%nat then
    let l := fresh (dom (heap w)) in
    let literal : gmap string value :=
      {[ "sessionId" := sessionId; "timestamp" := VNum t2; "engagement" := engagementData ]} in
    add t3 e (VObj l) (with_heap (<[l := literal]> (heap w)) w)
  else w.

(** [o.k] through a reference. *)
Definition field (h : gmap loc (gmap string value)) (v : value) (k : string) : value :=
  get k (own_props h v).

(** The SDK object, with the storage of its page and the [setInterval]
    registrations that are not the batcher's.  The console of the page is
    the trace of the batcher's world. *)
Record SEODataSDK := {
  sessionId : value;
  isInitialized : bool;
  privacyManager : Privacy.PrivacyManager;
  engagement : option EngagementTracker;
  engagementInterval : option positive;
  fullCollectionInterval : option positive;
  dataBatcher : World;
  storage : Privacy.LocalStorage;
  intervals : gset positive
}.

Definition with_trace (t : list Effect) (w : World) : World :=
  {| this := this w; heap := heap w; timers := timers w; next_timer := next_timer w;
     unload_listeners := unload_listeners w; suspended := suspended w; trace := t |}.

(** [if (handle) clearInterval(handle)] *)
Definition clearInterval (handle : option positive) (s : SEODataSDK) : SEODataSDK :=
  match handle with
  | None => s
  | Some id =>
      {| sessionId := sessionId s; isInitialized := isInitialized s;
         privacyManager := privacyManager s; engagement := engagement s;
         engagementInterval := engagementInterval s;
         fullCollectionInterval := fullCollectionInterval s;
         dataBatcher := with_timers (delete id (timers (dataBatcher s)))
                          (next_timer (dataBatcher s)) (dataBatcher s);
         storage := storage s;
         intervals := intervals s ∖ {[ id ]} |}
  end.

Definition on_batcher (f : World -> World) (s : SEODataSDK) : SEODataSDK :=
  {| sessionId := sessionId s; isInitialized := isInitialized s;
     privacyManager := privacyManager s; engagement := engagement s;
     engagementInterval := engagementInterval s;
     fullCollectionInterval := fullCollectionInterval s;
     dataBatcher := f (dataBatcher s); storage := storage s; intervals := intervals s |}.

Definition set_engagement (tr : option EngagementTracker) (s : SEODataSDK) : SEODataSDK :=
  {| sessionId := sessionId s; isInitialized := isInitialized s;
     privacyManager := privacyManager s; engagement := tr;
     engagementInterval := engagementInterval s;
     fullCollectionInterval := fullCollectionInterval s;
     dataBatcher := dataBatcher s; storage := storage s; intervals := intervals s |}.

Definition set_isInitialized (b : bool) (s : SEODataSDK) : SEODataSDK :=
  {| sessionId := sessionId s; isInitialized := b;
     privacyManager := privacyManager s; engagement := engagement s;
     engagementInterval := engagementInterval s;
     fullCollectionInterval := fullCollectionInterval s;
     dataBatcher := dataBatcher s; storage := storage s; intervals := intervals s |}.

(** [this.collectors.engagement.stop()], when there is a tracker. *)
Definition engagement_stop (s : SEODataSDK) : SEODataSDK :=
  match engagement s with
  | None => s
  | Some tr =>
      if negb (isTracking tr) then s
      else
        let s := clearInterval (timeInterval tr) s in
        let tr := {| tracker_data := tracker_data tr; startTime := startTime tr;
                     isTracking := false; timeInterval := timeInterval tr; listeners := 0 |} in
        on_batcher (emit [ConsoleLog "[Engagement Tracker] Stopped"]) (set_engagement (Some tr) s)
  end.

(** [destroy()] of the SDK. *)
Definition sdk_destroy (e : Sync) (s : SEODataSDK) : SEODataSDK :=
  let s := clearInterval (engagementInterval s) s in
  let s := clearInterval (fullCollectionInterval s) s in
  let s := engagement_stop s in
  let s := on_batcher (flush e) s in
  let s := set_isInitialized false s in
  on_batcher (emit [ConsoleLog "[SEO SDK] Destroyed"]) s.

(** [optOut()] of the SDK: the privacy manager's [optOut], then [destroy]. *)
Definition sdk_optOut `{Privacy.Json} (e : Sync) (s : SEODataSDK) : SEODataSDK :=
  let page := {| Privacy.manager := privacyManager s; Privacy.localStorage := storage s;
                 Privacy.console := trace (dataBatcher s) |} in
  let page := Privacy.optOut page in
  let s := {| sessionId := sessionId s; isInitialized := isInitialized s;
              privacyManager := Privacy.manager page; engagement := engagement s;
              engagementInterval := engagementInterval s;
              fullCollectionInterval := fullCollectionInterval s;
              dataBatcher := with_trace (Privacy.console page) (dataBatcher s);
              storage := Privacy.localStorage page; intervals := intervals s |} in
  sdk_destroy e s.

(** The handles the SDK and its tracker hold. *)
Definition sdk_handles (s : SEODataSDK) : list (option positive) :=
  [engagementInterval s; fullCollectionInterval s;
   match engagement s with Some tr => timeInterval tr | None => None end].

(** A tracker and an SDK for the sample worlds. *)
Definition demo_tracker : EngagementTracker :=
  {| tracker_data := 2%positive; startTime := 400; isTracking := true;
     timeInterval := Some 2%positive; listeners := 3 |}.

Definition demo_sdk (w : World) : SEODataSDK :=
  {| sessionId := VStr "session_1"; isInitialized := true;
     privacyManager := {| Privacy.mode := VStr "opt-out"; Privacy.storageKey := "seo_sdk_consent";
                          Privacy.consentGiven := VBool true |};
     engagement := Some demo_tracker;
     engagementInterval := Some 3%positive; fullCollectionInterval := Some 4%positive;
     dataBatcher := w; storage := Privacy.Available ∅ false;
     intervals := {[ 2%positive; 3%positive; 4%positive ]} |}.

(** The timer table after [if (handle) clearInterval(handle)]. *)
Definition clear_handle (handle : option positive) (t : gmap positive value) :
    gmap positive value :=
  match handle with Some id => delete id t | None => t end.

(** What [destroy] of the SDK makes the tracker do: whether it stops, the
    handle it cancels and the line it logs. *)
Definition tracker_stops (s : SEODataSDK) : bool :=
  match engagement s with Some tr => isTracking tr | None => false end.

Definition tracker_handle (s : SEODataSDK) : option positive :=
  match engagement s with
  | Some tr => if isTracking tr then timeInterval tr else None
  | None => None
  end.

(** Every event of payload [p] is held by the batcher in world [w]. *)
Definition held_by (w : World) (p : Payload) : Prop :=
  forall v, v ∈ events p -> v ∈ pending w.

(** ** Basic facts *)

(** A world written as [run acts (constructor ...)] is reachable. *)
Ltac reached := do 5 eexists; eexists; reflexivity.

Create HintDb batcher.

Lemma sends_app (t1 t2 : list Effect) : sends (t1 ++ t2) = sends t1 ++ sends t2.
Proof. unfold sends. apply omap_app. Qed.

Lemma transported_app (t1 t2 : list Effect) :
  transported (t1 ++ t2) = transported t1 ++ transported t2.
Proof. unfold transported. apply omap_app. Qed.

Lemma errors_logged_app (t1 t2 : list Effect) :
  errors_logged (t1 ++ t2) = errors_logged t1 ++ errors_logged t2.
Proof. unfold errors_logged. apply omap_app. Qed.

Lemma flush_skip (e : Sync) (w : World) :
  queue (this w) = [] \/ isProcessing (this w) = true -> flush e w = w.
Proof.
  intros [Hq | Hp]; unfold flush.
  - now rewrite Hq.
  - rewrite Hp. now rewrite orb_true_r.
Qed.

Lemma flush_go (e : Sync) (w : World) :
  can_flush w ->
  flush e w =
  {| this := set_queue [] (set_isProcessing true (this w));
     heap := heap w; timers := timers w; next_timer := next_timer w;
     unload_listeners := unload_listeners w;
     suspended := suspended w ++
                  [{| batch := queue (this w); awaiting := send_state e w |}];
     trace := trace w ++
              SendBatch (flush_payload e w) ::
              transport_effects e w (flush_payload e w) |}.
Proof.
  intros [Hq Hp]. unfold flush. rewrite Hp.
  destruct (queue (this w)) as [|x q] eqn:Eq; [congruence|]. cbn [length Nat.eqb orb].
  unfold sendBatch, send_state, transport_effects, flush_payload; cbn.
  rewrite Eq.
  destruct (truthy (onDataCallback (this w)) && is_function (onDataCallback (this w)));
    [destruct (callback_throws e)
    |destruct (negb (truthy (apiEndpoint (this w))));
     [|destruct (JSON_stringify_throws e (heap w) (x :: q))]];
    cbn; unfold with_suspended, emit; cbn; f_equal;
    rewrite <- ?app_assoc; reflexivity.
Qed.

Lemma flush_cases (e : Sync) (w : World) :
  (flush e w = w /\ (queue (this w) = [] \/ isProcessing (this w) = true)) \/ can_flush w.
Proof.
  destruct (queue (this w)) as [|x q] eqn:Eq.
  - left. split; [apply flush_skip|]; auto.
  - destruct (isProcessing (this w)) eqn:Ep.
    + left. split; [apply flush_skip|]; auto.
    + right. split; [rewrite Eq|]; auto; congruence.
Qed.

(** ** The continuation of [flush] in closed form *)

Lemma flush_resume_none (i : nat) (o : Outcome) (w : World) :
  suspended w !! i = None -> flush_resume i o w = w.
Proof. intros H. unfold flush_resume. now rewrite H. Qed.

Lemma flush_resume_some (i : nat) (o : Outcome) (w : World) (k : Suspended) :
  suspended w !! i = Some k ->
  flush_resume i o w =
  {| this :=
       set_isProcessing false
         (if (sendBatch_settle (awaiting k) o).2 then this w
          else set_queue (slice (requeue_start (maxQueueSize (this w))) (batch k)
                          ++ queue (this w)) (this w));
     heap := heap w; timers := timers w; next_timer := next_timer w;
     unload_listeners := unload_listeners w;
     suspended := delete i (suspended w);
     trace := trace w ++ (sendBatch_settle (awaiting k) o).1 ++
              (if (sendBatch_settle (awaiting k) o).2 then []
               else [ConsoleError "[Data Batcher] Error sending batch:"]) |}.
Proof.
  intros H. unfold flush_resume. rewrite H.
  destruct (sendBatch_settle (awaiting k) o) as [es [|]]; cbn.
  - unfold with_this; cbn. now rewrite app_nil_r.
  - unfold with_this; cbn. now rewrite app_assoc.
Qed.

Lemma slice_requeue_50 {A} (b : list A) :
  slice (requeue_start 50) b = drop (length b - 25) b.
Proof.
  unfold slice, requeue_start.
  replace (Z.quot (Z.opp 50) 2) with (Z.opp 25) by reflexivity.
  f_equal. case Z.ltb_spec; intros; lia.
Qed.

Lemma length_slice_requeue_50 {A} (b : list A) :
  length (slice (requeue_start 50) b) = Nat.min (length b) 25.
Proof. rewrite slice_requeue_50, length_drop. lia. Qed.

(** ** The invariant holds in every reachable world *)

Lemma inv_constructor host endpoint key batch_interval callback :
  batcher_inv (constructor host endpoint key batch_interval callback).
Proof.
  unfold constructor. destruct (host_window host); split; cbn; auto; left; auto.
Qed.

Lemma inv_flush (e : Sync) (w : World) : batcher_inv w -> batcher_inv (flush e w).
Proof.
  intros [Hm Hone]. destruct (flush_cases e w) as [[-> _] | Hgo]; [now split|].
  rewrite (flush_go e w Hgo). destruct Hgo as [_ Hp].
  split; cbn; [exact Hm|]. right. split; [reflexivity|].
  destruct Hone as [[_ ->] | [Ht _]]; [eauto | congruence].
Qed.

Lemma inv_flush_resume (i : nat) (o : Outcome) (w : World) :
  batcher_inv w -> batcher_inv (flush_resume i o w).
Proof.
  intros [Hm Hone]. destruct (suspended w !! i) as [k|] eqn:Hk.
  - rewrite (flush_resume_some i o w k Hk).
    split; cbn.
    + now destruct (sendBatch_settle (awaiting k) o).2.
    + left. split; [reflexivity|].
      destruct Hone as [[_ Hs] | [_ [k' Hs]]]; rewrite Hs in Hk |- *.
      * discriminate.
      * destruct i; [reflexivity | discriminate].
  - rewrite flush_resume_none by exact Hk. now split.
Qed.

Lemma inv_queue_push (now : Z) (data : value) (w : World) :
  batcher_inv w -> batcher_inv (queue_push now data w).
Proof. intros [Hm Hone]. split; cbn; assumption. Qed.

Lemma inv_add (now : Z) (e : Sync) (data : value) (w : World) :
  batcher_inv w -> batcher_inv (add now e data w).
Proof.
  intros H. unfold add. destruct (negb (truthy data)); [exact H|].
  destruct (_ <=? _)%Z; [apply inv_flush|]; now apply inv_queue_push.
Qed.

Lemma inv_stopBatchInterval (w : World) : batcher_inv w -> batcher_inv (stopBatchInterval w).
Proof. intros H. unfold stopBatchInterval. now destruct (interval (this w)). Qed.

#[local] Hint Resolve inv_flush inv_flush_resume inv_queue_push inv_add
  inv_stopBatchInterval : batcher.

Lemma inv_step (a : Action) (w : World) : batcher_inv w -> batcher_inv (step w a).
Proof.
  intros H. destruct a; cbn [step]; try exact H; auto with batcher.
  - unfold destroy. auto with batcher.
  - unfold interval_fires. destruct (timers w !! id); [|exact H].
    destruct (0 <? _)%nat; auto with batcher.
  - unfold beforeunload. destruct (unload_listeners w); auto with batcher.
Qed.

Lemma inv_run (acts : list Action) (w : World) : batcher_inv w -> batcher_inv (run acts w).
Proof.
  revert w. induction acts as [|a acts IH]; intros w H; cbn; [exact H|].
  apply IH. now apply inv_step.
Qed.

Lemma reachable_inv (w : World) : reachable w -> batcher_inv w.
Proof.
  intros (host & endpoint & key & bi & cb & acts & ->).
  apply inv_run, inv_constructor.
Qed.

Lemma reachable_step (a : Action) (w : World) : reachable w -> reachable (step w a).
Proof.
  intros (host & endpoint & key & bi & cb & acts & ->).
  exists host, endpoint, key, bi, cb, (acts ++ [a]).
  unfold run. now rewrite foldl_app.
Qed.

Lemma reachable_run (acts : list Action) (w : World) : reachable w -> reachable (run acts w).
Proof.
  revert w. induction acts as [|a acts IH]; intros w H; cbn; [exact H|].
  apply IH. now apply reachable_step.
Qed.

(** ** Calls made while a flush is in flight *)

Lemma add_falsy (now : Z) (e : Sync) (data : value) (w : World) :
  truthy data = false -> add now e data w = w.
Proof. intros H. unfold add. now rewrite H. Qed.

Lemma add_in_flight (now : Z) (e : Sync) (data : value) (w : World) :
  isProcessing (this w) = true -> truthy data = true ->
  add now e data w = queue_push now data w.
Proof.
  intros Hp Ht. unfold add. rewrite Ht. cbn [negb].
  destruct (_ <=? _)%Z; [|reflexivity].
  apply flush_skip. right. exact Hp.
Qed.

Lemma added_add now e d (acts : list Action) :
  added (Add now e d :: acts) = if truthy d then d :: added acts else added acts.
Proof. unfold added. cbn. now destruct (truthy d). Qed.

Lemma run_in_flight (acts : list Action) (w : World) :
  isProcessing (this w) = true -> Forall add_or_flush acts ->
  isProcessing (this (run acts w)) = true /\
  trace (run acts w) = trace w /\
  suspended (run acts w) = suspended w /\
  length (queue (this (run acts w))) = length (queue (this w)) + length (added acts).
Proof.
  revert w. induction acts as [|a acts IH]; intros w Hp Hall.
  - cbn. repeat split; [exact Hp | lia].
  - inversion Hall as [|? ? Ha Hall']; subst.
    change (run (a :: acts) w) with (run acts (step w a)).
    destruct a; cbn in Ha; try contradiction; cbn [step].
    + rewrite added_add. destruct (truthy data) eqn:Ht.
      * rewrite add_in_flight by assumption.
        destruct (IH (queue_push now data w) Hp Hall') as (H1 & H2 & H3 & H4).
        repeat split; try assumption.
        rewrite H4. cbn. rewrite length_app. cbn. lia.
      * rewrite add_falsy by assumption. now apply IH.
    + rewrite flush_skip by (right; exact Hp). now apply IH.
Qed.

Lemma transported_transport_effects (e : Sync) (w : World) :
  transported (transport_effects e w (flush_payload e w)) =
  if reaches_transport e w then [flush_payload e w] else [].
Proof.
  unfold transport_effects, reaches_transport. cbn [events flush_payload].
  destruct (truthy (onDataCallback (this w)) && is_function (onDataCallback (this w))); cbn.
  - now destruct (callback_throws e).
  - destruct (truthy (apiEndpoint (this w))); cbn; [|reflexivity].
    now destruct (JSON_stringify_throws e (heap w) (queue (this w))).
Qed.

Lemma sends_transport_effects (e : Sync) (w : World) (p : Payload) :
  sends (transport_effects e w p) = [].
Proof.
  unfold transport_effects.
  destruct (truthy (onDataCallback (this w)) && is_function (onDataCallback (this w))); cbn.
  - now destruct (callback_throws e).
  - destruct (negb (truthy (apiEndpoint (this w)))); [reflexivity|].
    now destruct (JSON_stringify_throws e (heap w) (events p)).
Qed.

Lemma sends_flush_go (e : Sync) (w : World) :
  can_flush w -> sends (trace (flush e w)) = sends (trace w) ++ [flush_payload e w].
Proof.
  intros H. rewrite (flush_go e w H). cbn [trace].
  rewrite sends_app. cbn. now rewrite sends_transport_effects.
Qed.

Lemma sends_settle (st : SendState) (o : Outcome) : sends (sendBatch_settle st o).1 = [].
Proof.
  destruct st; cbn; try reflexivity.
  - now destruct (callback_fulfils o).
  - destruct (fetch_fulfils o); [destruct (response_ok o)|]; reflexivity.
Qed.

Lemma sends_flush_resume (i : nat) (o : Outcome) (w : World) :
  sends (trace (flush_resume i o w)) = sends (trace w).
Proof.
  destruct (suspended w !! i) as [k|] eqn:Hk.
  - rewrite (flush_resume_some i o w k Hk). cbn [trace].
    rewrite !sends_app, sends_settle.
    destruct (sendBatch_settle (awaiting k) o).2; cbn; now rewrite app_nil_r.
  - now rewrite flush_resume_none.
Qed.

(** C1.  A [flush] whose guard fails (empty queue, or a flush in progress)
    returns the world as it found it: no send, no change to the queue.  When a
    [flush] passes the guard and, while it is parked on its send, [add] and
    [flush] are called in any number and order, every such [flush] is a no-op:
    [sendBatch] has been entered once, with the snapshot of the first call,
    and a transport was handed that one payload (unless it is to be posted
    and does not serialize); every [add] only enqueues,
    so the queue holds as many events as were added, and the first flush that
    runs after the parked one has completed sends them.  In every reachable
    world at most one flush is parked, and the flag is set exactly then.
    (A transport invocation is a call of [sendBatch]; [transported] lists
    what reached a callback or [fetch].) *)
Theorem flush_guard_single_flight :
  (forall e w, queue (this w) = [] \/ isProcessing (this w) = true -> flush e w = w) /\
  (forall e1 e2 w acts,
      can_flush w -> Forall add_or_flush acts ->
      let w1 := flush e1 w in
      let w2 := run acts w1 in
      flush e2 w2 = w2 /\
      sends (trace w2) = sends (trace w) ++ [flush_payload e1 w] /\
      transported (trace w2) =
        transported (trace w) ++ (if reaches_transport e1 w then [flush_payload e1 w] else []) /\
      suspended w2 =
        suspended w ++ [{| batch := queue (this w); awaiting := send_state e1 w |}] /\
      length (queue (this w2)) = length (added acts) /\
      (forall now e d, truthy d = true -> add now e d w2 = queue_push now d w2) /\
      (forall o e3, queue (this w2) <> [] ->
         let w3 := flush_resume (length (suspended w)) o w2 in
         exists older,
           sends (trace (flush e3 w3)) =
           sends (trace w2) ++
           [{| events := older ++ queue (this w2);
               batchSize := length (older ++ queue (this w2));
               timestamp := date_now e3 |}])) /\
  (forall w, reachable w -> one_in_flight w).
Proof.
  split; [exact flush_skip|].
  split; [|intros w Hr; exact (proj2 (reachable_inv w Hr))].
  intros e1 e2 w acts Hgo Hall w1 w2.
  assert (Hp1 : isProcessing (this w1) = true).
  { unfold w1. now rewrite (flush_go e1 w Hgo). }
  destruct (run_in_flight acts w1 Hp1 Hall) as (Hp2 & Ht & Hs & Hl).
  fold w2 in Hp2, Ht, Hs, Hl.
  assert (Hs2 : suspended w2 =
                suspended w ++ [{| batch := queue (this w); awaiting := send_state e1 w |}]).
  { rewrite Hs. unfold w1. now rewrite (flush_go e1 w Hgo). }
  split; [apply flush_skip; now right|].
  split; [rewrite Ht; now apply sends_flush_go|].
  split.
  { rewrite Ht. unfold w1. rewrite (flush_go e1 w Hgo). cbn [trace].
    rewrite transported_app. cbn. now rewrite transported_transport_effects. }
  split; [exact Hs2|].
  split.
  { rewrite Hl. unfold w1. now rewrite (flush_go e1 w Hgo). }
  split; [intros now e d Hd; now apply add_in_flight|].
  intros o e3 Hq w3.
  assert (Hk : suspended w2 !! length (suspended w) =
               Some {| batch := queue (this w); awaiting := send_state e1 w |}).
  { rewrite Hs2. now rewrite list_lookup_middle. }
  pose proof (flush_resume_some _ o w2 _ Hk) as Hr. fold w3 in Hr.
  cbn [awaiting batch] in Hr.
  set (ok := (sendBatch_settle (send_state e1 w) o).2) in *.
  exists (if ok then [] else slice (requeue_start (maxQueueSize (this w2))) (queue (this w))).
  assert (Hq3 : queue (this w3) =
                (if ok then [] else slice (requeue_start (maxQueueSize (this w2))) (queue (this w)))
                ++ queue (this w2)).
  { rewrite Hr. cbn. now destruct ok. }
  assert (Hgo3 : can_flush w3).
  { split.
    - rewrite Hq3. intros Habs. apply app_eq_nil in Habs. now destruct Habs.
    - rewrite Hr. reflexivity. }
  rewrite (sends_flush_go e3 w3 Hgo3). unfold w3 at 1. rewrite sends_flush_resume.
  unfold flush_payload. now rewrite Hq3.
Qed.

Lemma reachable_parked_alone (w : World) (i : nat) (k : Suspended) :
  reachable w -> suspended w !! i = Some k -> suspended w = [k] /\ i = 0.
Proof.
  intros Hr Hk. destruct (reachable_inv w Hr) as [_ [[_ Hs] | [_ [k' Hs]]]];
    rewrite Hs in Hk |- *.
  - discriminate.
  - destruct i; [|discriminate]. cbn in Hk. now inversion Hk.
Qed.

(** C2.  When the send of a parked flush fails, the last 25 events of its
    batch (all of them when the batch has at most 25) are put back, in their
    order, in front of whatever the queue holds by then; the older events of
    the batch are in no queue and no parked flush afterwards.  A failed batch
    of 50 puts back 25. *)
Theorem failed_flush_requeues_tail (w : World) (i : nat) (k : Suspended) (o : Outcome) :
  reachable w -> suspended w !! i = Some k -> send_fails k o ->
  let n := length (batch k) in
  let kept := drop (n - 25) (batch k) in
  queue (this (flush_resume i o w)) = kept ++ queue (this w) /\
  length kept = Nat.min n 25 /\
  batch k = take (n - 25) (batch k) ++ kept /\
  suspended (flush_resume i o w) = [] /\
  (n = 50 -> length kept = 25).
Proof.
  intros Hr Hk Hf n kept.
  destruct (reachable_inv w Hr) as [Hm _].
  destruct (reachable_parked_alone w i k Hr Hk) as [Hs ->].
  rewrite (flush_resume_some 0 o w k Hk). unfold send_fails in Hf. rewrite Hf. cbn.
  rewrite Hm, slice_requeue_50. fold n. fold kept.
  assert (Hlen : length kept = Nat.min n 25).
  { unfold kept. rewrite length_drop. fold n. lia. }
  repeat split.
  - exact Hlen.
  - unfold kept. now rewrite take_drop.
  - now rewrite Hs.
  - intros Hn. rewrite Hlen, Hn. reflexivity.
Qed.

(** C8.  The continuation of a parked [flush] ends with the flag cleared,
    whatever the send did: fulfilled, rejected, or rejected because the
    callback threw when it was called.  Hence a [flush] that passed the guard
    completes with the flag cleared, and the next [flush] on a non-empty queue
    sends again; after a failed send the queue is not empty. *)
Theorem flush_always_clears_flag :
  (forall w i k o,
      suspended w !! i = Some k -> isProcessing (this (flush_resume i o w)) = false) /\
  (forall e e' o w,
      reachable w -> can_flush w ->
      let w1 := flush e w in
      let w2 := flush_resume (length (suspended w)) o w1 in
      isProcessing (this w1) = true /\
      isProcessing (this w2) = false /\
      ((sendBatch_settle (send_state e w) o).2 = false -> queue (this w2) <> []) /\
      (queue (this w2) <> [] ->
       sends (trace (flush e' w2)) = sends (trace w2) ++ [flush_payload e' w2])).
Proof.
  split.
  { intros w i k o Hk. now rewrite (flush_resume_some i o w k Hk). }
  intros e e' o w Hr Hgo w1 w2.
  destruct (reachable_inv w Hr) as [Hm _].
  assert (Hk : suspended w1 !! length (suspended w) =
               Some {| batch := queue (this w); awaiting := send_state e w |}).
  { unfold w1. rewrite (flush_go e w Hgo). cbn [suspended]. now rewrite list_lookup_middle. }
  pose proof (flush_resume_some _ o w1 _ Hk) as Hr2. fold w2 in Hr2.
  cbn [awaiting batch] in Hr2.
  assert (Hp2 : isProcessing (this w2) = false) by now rewrite Hr2.
  split; [unfold w1; now rewrite (flush_go e w Hgo)|].
  split; [exact Hp2|].
  split.
  - intros Hf. rewrite Hr2, Hf. cbn.
    unfold w1. rewrite (flush_go e w Hgo). cbn. rewrite Hm, slice_requeue_50.
    rewrite app_nil_r. destruct Hgo as [Hq _].
    intros Habs. apply (f_equal length) in Habs. rewrite length_drop in Habs.
    destruct (queue (this w)); [congruence|]. cbn in Habs. lia.
  - intros Hq. apply sends_flush_go. now split.
Qed.

(** C6.  With no callback and no endpoint configured, a [flush] that passes
    the guard hands the batch to no transport: [sendBatch] logs and its
    promise is already fulfilled.  Whatever the host would answer, the
    continuation takes the success path: nothing is logged as an error,
    nothing is re-queued, and with no call in between the queue is empty and
    the flag cleared. *)
Theorem no_backend_delivery_succeeds (e : Sync) (o : Outcome) (w : World) :
  can_flush w -> uses_transport (this w) = false ->
  let w1 := flush e w in
  let w2 := flush_resume (length (suspended w)) o w1 in
  send_state e w = Fulfilled /\
  sendBatch_settle (send_state e w) o = ([], true) /\
  trace w2 = trace w ++ [SendBatch (flush_payload e w);
                         ConsoleLog "[Data Batcher] No endpoint or callback configured"] /\
  transported (trace w2) = transported (trace w) /\
  errors_logged (trace w2) = errors_logged (trace w) /\
  queue (this w2) = [] /\
  getQueueSize w2 = 0 /\
  isProcessing (this w2) = false /\
  suspended w2 = suspended w.
Proof.
  intros Hgo Hu w1 w2.
  unfold uses_transport in Hu. apply orb_false_iff in Hu as [Hcb Hep].
  assert (Hst : send_state e w = Fulfilled).
  { unfold send_state. now rewrite Hcb, Hep. }
  assert (Hk : suspended w1 !! length (suspended w) =
               Some {| batch := queue (this w); awaiting := Fulfilled |}).
  { unfold w1. rewrite (flush_go e w Hgo). cbn [suspended].
    now rewrite Hst, list_lookup_middle. }
  pose proof (flush_resume_some _ o w1 _ Hk) as Hr2. fold w2 in Hr2.
  cbn in Hr2.
  assert (Ht : trace w2 = trace w ++ [SendBatch (flush_payload e w);
                 ConsoleLog "[Data Batcher] No endpoint or callback configured"]).
  { rewrite Hr2. cbn [trace]. unfold w1. rewrite (flush_go e w Hgo). cbn [trace].
    unfold transport_effects. rewrite Hcb, Hep. cbn. now rewrite app_nil_r. }
  split; [exact Hst|].
  split; [now rewrite Hst|].
  split; [exact Ht|].
  split; [rewrite Ht, transported_app; cbn; now rewrite app_nil_r|].
  split; [rewrite Ht, errors_logged_app; cbn; now rewrite app_nil_r|].
  assert (Hq : queue (this w2) = []).
  { rewrite Hr2. cbn. unfold w1. now rewrite (flush_go e w Hgo). }
  split; [exact Hq|].
  split; [unfold getQueueSize; now rewrite Hq|].
  split; [now rewrite Hr2|].
  rewrite Hr2. cbn [suspended]. unfold w1. rewrite (flush_go e w Hgo). cbn [suspended].
  rewrite delete_middle. now rewrite app_nil_r.
Qed.

Lemma heap_flush (e : Sync) (w : World) : heap (flush e w) = heap w.
Proof.
  destruct (flush_cases e w) as [[-> _] | Hgo]; [reflexivity|].
  now rewrite (flush_go e w Hgo).
Qed.

Lemma heap_add_truthy (now : Z) (e : Sync) (data : value) (w : World) :
  truthy data = true ->
  heap (add now e data w) =
  <[fresh (dom (heap w)) := <["_timestamp" := VNum now]> (own_props (heap w) data)]> (heap w).
Proof.
  intros Ht. unfold add. rewrite Ht. cbn [negb].
  destruct (_ <=? _)%Z; [rewrite heap_flush|]; reflexivity.
Qed.

(** C5 (as amended).  [add] is a no-op exactly for the falsy values:
    [undefined], [null], [false], [0], [NaN] and the empty string.  Then the
    world is unchanged: nothing is queued, nothing is logged.  Every other
    value changes the world, an object without properties included. *)
Theorem add_noop_iff_falsy (now : Z) (e : Sync) (data : value) (w : World) :
  (add now e data w = w <-> truthy data = false) /\
  (truthy data = false <->
   data ∈ [VUndefined; VNull; VBool false; VNum 0; VNaN; VStr ""]).
Proof.
  split; split.
  - intros Heq. destruct (truthy data) eqn:Ht; [|reflexivity]. exfalso.
    pose proof (heap_add_truthy now e data w Ht) as Hh. rewrite Heq in Hh.
    assert (Hin : fresh (dom (heap w)) ∈ dom (heap w)).
    { rewrite Hh at 2. rewrite dom_insert_L. set_solver. }
    exact (is_fresh _ Hin).
  - apply add_falsy.
  - intros Ht. destruct data as [| |[|]|n| |[|]| |]; cbn in Ht; try discriminate;
      try (repeat (try (left; fail); right); left; fail).
    destruct n; cbn in Ht; try discriminate.
    do 3 right. left.
  - intros Hin. repeat (apply elem_of_cons in Hin as [-> | Hin]; [reflexivity|]).
    now apply elem_of_nil in Hin.
Qed.

(** C5, the claim as stated fails: the empty object is enqueued. *)
Lemma add_enqueues_empty_object :
  empty_or_absent (heap demo_plain) (VObj 1%positive) /\
  getQueueSize demo_plain = 0 /\
  getQueueSize (add 1000 demo_sync (VObj 1%positive) demo_plain) = 1.
Proof.
  split; [|split; reflexivity].
  right. right. exists 1%positive. split; reflexivity.
Qed.

Lemma maxQueueSize_constructor host endpoint key bi cb :
  maxQueueSize (this (constructor host endpoint key bi cb)) = 50%Z.
Proof. unfold constructor. now destruct (host_window host). Qed.

(** C7 (as amended).  No option of the constructor or of the SDK's
    configuration sets the capacity: in every world reached from a
    construction it is 50. *)
Theorem capacity_is_fixed_at_50 :
  (forall host endpoint key batch_interval callback acts,
      maxQueueSize (this (run acts (constructor host endpoint key batch_interval callback)))
      = 50%Z) /\
  (forall host config acts,
      maxQueueSize (this (run acts (sdk_dataBatcher host config))) = 50%Z).
Proof.
  split.
  - intros. apply reachable_inv. now exists host, endpoint, key, batch_interval, callback, acts.
  - intros. apply reachable_inv. unfold sdk_dataBatcher. do 5 eexists. now exists acts.
Qed.

(** C7, the claim as stated fails: a configuration with [capacity: 3] gives a
    batcher of capacity 50, and three events added to it are not flushed. *)
Lemma capacity_option_ignored :
  let config : gmap string value := {[ "capacity" := VNum 3 ]} in
  let w := sdk_dataBatcher demo_host config in
  let adds := replicate 3 (Add 1000 demo_sync (VObj 2%positive)) in
  get "capacity" (sdk_config config) = VNum 3 /\
  maxQueueSize (this w) <> 3%Z /\
  getQueueSize (run adds w) = 3 /\
  sends (trace (run adds w)) = [].
Proof.
  cbv zeta. split; [reflexivity|]. split; [|split; reflexivity].
  unfold sdk_dataBatcher. rewrite maxQueueSize_constructor. discriminate.
Qed.

(** ** What [add] does with a truthy event *)

Lemma add_unfold (now : Z) (e : Sync) (d : value) (w : World) :
  truthy d = true ->
  add now e d w =
  if (maxQueueSize (this w) <=? Z.of_nat (length (queue (this w)) + 1))%Z
  then flush e (queue_push now d w)
  else queue_push now d w.
Proof.
  intros Ht. unfold add. rewrite Ht. cbn [negb].
  replace (length (queue (this (queue_push now d w)))) with (length (queue (this w)) + 1)
    by (cbn; now rewrite length_app).
  reflexivity.
Qed.

Lemma add_enqueues (now : Z) (e : Sync) (d : value) (w : World) :
  truthy d = true ->
  let l := fresh (dom (heap w)) in
  let entries := queue (this w) ++ [VObj l] in
  (l ∉ dom (heap w)) /\
  heap (add now e d w) = <[l := <["_timestamp" := VNum now]> (own_props (heap w) d)]> (heap w) /\
  ((queue (this (add now e d w)) = entries /\
    trace (add now e d w) = trace w /\
    suspended (add now e d w) = suspended w /\
    isProcessing (this (add now e d w)) = isProcessing (this w) /\
    ((Z.of_nat (length entries) < maxQueueSize (this w))%Z \/ isProcessing (this w) = true)) \/
   (queue (this (add now e d w)) = [] /\
    sends (trace (add now e d w)) =
      sends (trace w) ++
      [{| events := entries; batchSize := length entries; timestamp := date_now e |}] /\
    suspended (add now e d w) =
      suspended w ++ [{| batch := entries; awaiting := send_state e (queue_push now d w) |}] /\
    isProcessing (this (add now e d w)) = true /\
    (maxQueueSize (this w) <= Z.of_nat (length entries))%Z /\
    isProcessing (this w) = false)).
Proof.
  intros Ht l entries.
  split; [apply is_fresh|].
  split; [now apply heap_add_truthy|].
  rewrite (add_unfold now e d w Ht).
  assert (Hlen : length entries = length (queue (this w)) + 1).
  { unfold entries. rewrite length_app. reflexivity. }
  rewrite <- Hlen.
  destruct (Z.leb_spec (maxQueueSize (this w)) (Z.of_nat (length entries))) as [Hfull | Hroom].
  - destruct (flush_cases e (queue_push now d w)) as [[-> Hskip] | Hgo].
    + left. cbn. repeat split. right.
      destruct Hskip as [Hq | Hp]; [|exact Hp].
      cbn in Hq. apply app_eq_nil in Hq as [_ Hq]. discriminate.
    + right. rewrite (flush_go e (queue_push now d w) Hgo).
      destruct Hgo as [_ Hp]. cbn in Hp. cbn.
      rewrite sends_app. cbn. rewrite sends_transport_effects.
      repeat split; try assumption.
  - left. cbn. repeat split. now left.
Qed.

(** C9.  There is an execution in which [clear] empties a queue that holds
    an event while a flush is parked, the send then fails and the
    continuation puts the failed batch back: the queue holds the event of
    the batch, not the one [clear] removed, although nothing was added after
    [clear].  In every world [clear] empties the queue and changes nothing
    else: the flag, the timer handle, the timer table and the parked flush
    stay. *)
Theorem clear_is_not_final :
  (exists w o,
      reachable w /\
      isProcessing (this w) = true /\
      map batch (suspended w) = [[VObj 10%positive]] /\
      queue (this w) = [VObj 11%positive] /\
      getQueueSize w = 1 /\
      getQueueSize (clear w) = 0 /\
      queue (this (flush_resume 0 o (clear w))) = [VObj 10%positive] /\
      getQueueSize (flush_resume 0 o (clear w)) = 1) /\
  (forall w,
      queue (this (clear w)) = [] /\
      getQueueSize (clear w) = 0 /\
      isProcessing (this (clear w)) = isProcessing (this w) /\
      interval (this (clear w)) = interval (this w) /\
      timers (clear w) = timers w /\
      next_timer (clear w) = next_timer w /\
      suspended (clear w) = suspended w /\
      trace (clear w) = trace w /\
      heap (clear w) = heap w).
Proof.
  split.
  - exists (run [Add 1000 demo_sync (VObj 2%positive); Flush demo_sync;
                 Add 1001 demo_sync (VObj 2%positive)] demo_callback),
      callback_rejects.
    split; [|vm_compute; repeat split].
    unfold demo_callback. reached.
  - intros w. repeat split.
Qed.

(** ** Calls after [destroy] *)

Lemma flush_with_timers (t : gmap positive value) (n : positive) (e : Sync) (w : World) :
  flush e (with_timers t n w) = with_timers t n (flush e w).
Proof.
  destruct (flush_cases e w) as [[Heq Hskip] | Hgo].
  - rewrite Heq. apply flush_skip. exact Hskip.
  - rewrite (flush_go e w Hgo).
    assert (Hgo' : can_flush (with_timers t n w)) by exact Hgo.
    now rewrite (flush_go e _ Hgo').
Qed.

Lemma flush_resume_with_timers t n (i : nat) (o : Outcome) (w : World) :
  flush_resume i o (with_timers t n w) = with_timers t n (flush_resume i o w).
Proof.
  destruct (suspended w !! i) as [k|] eqn:Hk.
  - rewrite (flush_resume_some i o w k Hk).
    assert (Hk' : suspended (with_timers t n w) !! i = Some k) by exact Hk.
    now rewrite (flush_resume_some i o _ k Hk').
  - rewrite (flush_resume_none i o w Hk).
    now rewrite flush_resume_none.
Qed.

Lemma step_with_timers t n (a : Action) (w : World) :
  timer_free a -> step (with_timers t n w) a = with_timers t n (step w a).
Proof.
  destruct a; cbn [timer_free step]; intros Hfree; try contradiction.
  - unfold add. destruct (negb (truthy data)); [reflexivity|].
    change (queue_push now data (with_timers t n w))
      with (with_timers t n (queue_push now data w)).
    cbn [this with_timers]. destruct (_ <=? _)%Z; [apply flush_with_timers | reflexivity].
  - apply flush_with_timers.
  - reflexivity.
  - unfold beforeunload. cbn [unload_listeners with_timers].
    destruct (unload_listeners w); [reflexivity | apply flush_with_timers].
  - apply flush_resume_with_timers.
  - reflexivity.
Qed.

Lemma run_with_timers t n (acts : list Action) (w : World) :
  Forall timer_free acts -> run acts (with_timers t n w) = with_timers t n (run acts w).
Proof.
  revert w. induction acts as [|a acts IH]; intros w Hall; [reflexivity|].
  inversion Hall as [|? ? Ha Hall']; subst.
  change (run (a :: acts) (with_timers t n w)) with (run acts (step (with_timers t n w) a)).
  rewrite step_with_timers by exact Ha. now apply IH.
Qed.

(** C10.  [destroy] is a [flush] in a world whose timer table lost the
    batcher's interval; it leaves no other mark.  So every execution of calls
    after [destroy] goes exactly as it goes after a plain [flush], up to the
    timer table: in every world reached after [destroy], [add] of a truthy
    event enqueues its copy (and dispatches the flush when the capacity is
    reached and none is in flight), and a [flush] that passes the guard
    sends. *)
Theorem destroy_does_not_disable (e : Sync) (w : World) :
  let stopped :=
    match interval (this w) with Some id => delete id (timers w) | None => timers w end in
  destroy e w = with_timers stopped (next_timer w) (flush e w) /\
  (forall acts,
      Forall timer_free acts ->
      run acts (destroy e w) = with_timers stopped (next_timer w) (run acts (flush e w))) /\
  (forall acts now e2 d,
      truthy d = true ->
      let w1 := run acts (destroy e w) in
      let entries := queue (this w1) ++ [VObj (fresh (dom (heap w1)))] in
      (queue (this (add now e2 d w1)) = entries /\
       ((Z.of_nat (length entries) < maxQueueSize (this w1))%Z \/ isProcessing (this w1) = true)) \/
      (sends (trace (add now e2 d w1)) =
         sends (trace w1) ++
         [{| events := entries; batchSize := length entries; timestamp := date_now e2 |}] /\
       (maxQueueSize (this w1) <= Z.of_nat (length entries))%Z)) /\
  (forall acts e2,
      let w1 := run acts (destroy e w) in
      can_flush w1 ->
      sends (trace (flush e2 w1)) = sends (trace w1) ++ [flush_payload e2 w1]).
Proof.
  intros stopped.
  assert (Hd : destroy e w = with_timers stopped (next_timer w) (flush e w)).
  { unfold destroy, stopBatchInterval, stopped.
    destruct (interval (this w)) as [id|].
    - apply flush_with_timers.
    - rewrite <- flush_with_timers. now destruct w. }
  split; [exact Hd|].
  split; [intros acts Hall; rewrite Hd; now apply run_with_timers|].
  split.
  - intros acts now e2 d Ht w1 entries.
    destruct (add_enqueues now e2 d w1 Ht) as (_ & _ & [H | H]).
    + left. destruct H as (Hq & _ & _ & _ & Hc). now split.
    + right. destruct H as (_ & Hs & _ & _ & Hc & _). now split.
  - intros acts e2 w1 Hgo. now apply sends_flush_go.
Qed.

(** ** Sequences of [add] *)

Lemma run_adds_below_capacity (calls : list (Z * Sync * value)) (w : World) :
  Forall (fun c => truthy c.2 = true) calls ->
  (Z.of_nat (getQueueSize w + length calls) < maxQueueSize (this w))%Z ->
  let w' := run (add_calls calls) w in
  getQueueSize w' = getQueueSize w + length calls /\
  trace w' = trace w /\
  suspended w' = suspended w /\
  isProcessing (this w') = isProcessing (this w).
Proof.
  revert w. induction calls as [|[[now e] d] calls IH]; intros w Hall Hlt.
  - cbn. repeat split. lia.
  - inversion Hall as [|? ? Ht Hall']; subst. cbn in Ht.
    change (run (add_calls (((now, e), d) :: calls)) w)
      with (run (add_calls calls) (add now e d w)).
    assert (Hadd : add now e d w = queue_push now d w).
    { rewrite (add_unfold now e d w Ht).
      destruct (Z.leb_spec (maxQueueSize (this w)) (Z.of_nat (length (queue (this w)) + 1)));
        [|reflexivity].
      unfold getQueueSize in Hlt. cbn [length] in Hlt. lia. }
    rewrite Hadd.
    assert (Hsz : getQueueSize (queue_push now d w) = getQueueSize w + 1).
    { unfold getQueueSize. cbn. now rewrite length_app. }
    destruct (IH (queue_push now d w) Hall') as (H1 & H2 & H3 & H4).
    { rewrite Hsz. cbn [length] in Hlt. cbn [this queue_push with_this with_heap set_queue maxQueueSize].
      replace (getQueueSize w + 1 + length calls) with (getQueueSize w + S (length calls)) by lia.
      exact Hlt. }
    cbn zeta. rewrite H1, H2, H3, H4, Hsz. cbn [length]. repeat split. lia.
Qed.

(** C4.  After any sequence of [add] calls with truthy events, one more [add]
    of a truthy event allocates a new object holding the event's own
    properties and [_timestamp], leaves every other object as it was, and
    puts the reference to the new object at the tail of the queue before it
    does anything else.
    While the calls keep the queue below the capacity of 50 nothing else
    happens: no effect, no parked flush, and the size grows by one per call
    (so it is the number of events added to a new batcher).  The [add] that
    brings the length to 50 calls [flush] once on the queue with the new
    entry at its tail; when no flush is in flight this enters [sendBatch]
    once with the 50 events, and [add] returns with that flush parked and
    the queue empty. *)
Theorem add_appends_and_flushes_at_capacity
    (w : World) (calls : list (Z * Sync * value)) (now : Z) (e : Sync) (d : value) :
  reachable w ->
  Forall (fun c => truthy c.2 = true) calls ->
  truthy d = true ->
  let w1 := run (add_calls calls) w in
  let l := fresh (dom (heap w1)) in
  let entries := queue (this w1) ++ [VObj l] in
  let w2 := add now e d w1 in
  (getQueueSize w + length calls < 50 ->
   getQueueSize w1 = getQueueSize w + length calls /\
   trace w1 = trace w /\ suspended w1 = suspended w /\
   isProcessing (this w1) = isProcessing (this w)) /\
  (l ∉ dom (heap w1)) /\
  heap w2 = <[l := <["_timestamp" := VNum now]> (own_props (heap w1) d)]> (heap w1) /\
  (forall l', l' <> l -> heap w2 !! l' = heap w1 !! l') /\
  queue (this (queue_push now d w1)) = entries /\
  (w2 = queue_push now d w1 \/ w2 = flush e (queue_push now d w1)) /\
  (getQueueSize w1 + 1 < 50 ->
   queue (this w2) = entries /\ trace w2 = trace w1 /\ suspended w2 = suspended w1) /\
  (getQueueSize w1 + 1 = 50 ->
   w2 = flush e (queue_push now d w1) /\
   (isProcessing (this w1) = false ->
    sends (trace w2) =
      sends (trace w1) ++
      [{| events := entries; batchSize := 50; timestamp := date_now e |}] /\
    queue (this w2) = [] /\
    getQueueSize w2 = 0 /\
    suspended w2 = [{| batch := entries; awaiting := send_state e (queue_push now d w1) |}] /\
    isProcessing (this w2) = true)).
Proof.
  intros Hr Hall Ht w1 l entries w2.
  destruct (reachable_inv w Hr) as [Hm _].
  assert (Hr1 : reachable w1) by now apply reachable_run.
  destruct (reachable_inv w1 Hr1) as [Hm1 Hone1].
  destruct (add_enqueues now e d w1 Ht) as (Hfresh & Hheap & Hcases).
  fold l in Hfresh, Hheap, Hcases. fold entries in Hcases. fold w2 in Hheap, Hcases.
  assert (Hlen : length entries = getQueueSize w1 + 1).
  { unfold entries, getQueueSize. now rewrite length_app. }
  split.
  { intros Hlt. apply run_adds_below_capacity; [exact Hall|]. rewrite Hm. lia. }
  split; [exact Hfresh|].
  split; [exact Hheap|].
  split.
  { intros l' Hne. rewrite Hheap. now apply lookup_insert_ne. }
  split; [reflexivity|].
  split.
  { unfold w2. rewrite (add_unfold now e d w1 Ht). destruct (_ <=? _)%Z; auto. }
  split.
  { intros Hlt. destruct Hcases as [(Hq & Htr & Hs & _) | (_ & _ & _ & _ & Hfull & _)].
    - now repeat split.
    - rewrite Hm1 in Hfull. lia. }
  intros Hcap. split.
  { unfold w2. rewrite (add_unfold now e d w1 Ht).
    destruct (Z.leb_spec (maxQueueSize (this w1)) (Z.of_nat (length (queue (this w1)) + 1)));
      [reflexivity|].
    unfold getQueueSize in Hcap. rewrite Hm1 in *. lia. }
  intros Hidle.
  destruct Hcases as [(_ & _ & _ & _ & [Hroom | Hbusy]) | (Hq & Hsends & Hs & Hp & _ & _)].
  - rewrite Hm1 in Hroom. lia.
  - congruence.
  - rewrite Hlen, Hcap in Hsends.
    destruct Hone1 as [[_ Hs1] | [Hbusy _]]; [|congruence].
    rewrite Hs1 in Hs. repeat split; try assumption.
    unfold getQueueSize. now rewrite Hq.
Qed.

(** ** The length of the queue *)

Lemma queue_flush (e : Sync) (w : World) :
  queue (this (flush e w)) = queue (this w) \/ queue (this (flush e w)) = [].
Proof.
  destruct (flush_cases e w) as [[-> _] | Hgo]; [now left|].
  right. now rewrite (flush_go e w Hgo).
Qed.

Lemma size_flush (e : Sync) (w : World) : getQueueSize (flush e w) <= getQueueSize w.
Proof.
  unfold getQueueSize. destruct (queue_flush e w) as [-> | ->]; cbn; lia.
Qed.

Lemma below_flush (e : Sync) (w : World) :
  getQueueSize w < 50 /\ (isProcessing (this w) = true -> queue (this w) = []) ->
  getQueueSize (flush e w) < 50 /\
  (isProcessing (this (flush e w)) = true -> queue (this (flush e w)) = []).
Proof.
  intros H. destruct (flush_cases e w) as [[-> _] | Hgo]; [exact H|].
  rewrite (flush_go e w Hgo). unfold getQueueSize. cbn. split; [lia | reflexivity].
Qed.

(** While no event is added during a flush, the queue is empty as long as a
    flush is in flight, and what a failed send puts back is at most 25. *)
Lemma calm_step_below (a : Action) (w : World) :
  batcher_inv w ->
  getQueueSize w < 50 /\ (isProcessing (this w) = true -> queue (this w) = []) ->
  calm w [a] ->
  getQueueSize (step w a) < 50 /\
  (isProcessing (this (step w a)) = true -> queue (this (step w a)) = []).
Proof.
  intros [Hm Hone] [Hlt Hempty] [Hok _].
  destruct a; cbn [step].
  - destruct (truthy data) eqn:Ht; [|now rewrite add_falsy].
    specialize (Hok eq_refl).
    destruct (add_enqueues now e data w Ht) as (_ & _ & [H | H]).
    + destruct H as (Hq & _ & _ & Hp & [Hroom | Hbusy]); [|congruence].
      unfold getQueueSize. rewrite Hq, Hp. rewrite Hm in Hroom.
      split; [lia | congruence].
    + destruct H as (Hq & _). unfold getQueueSize. rewrite Hq. cbn. split; [lia | reflexivity].
  - now apply below_flush.
  - unfold getQueueSize. cbn. split; [lia | reflexivity].
  - unfold destroy. apply below_flush.
    unfold stopBatchInterval, getQueueSize. now destruct (interval (this w)).
  - now split.
  - unfold stopBatchInterval, getQueueSize. now destruct (interval (this w)).
  - unfold interval_fires. destruct (timers w !! id); [|now split].
    destruct (0 <? _)%nat; [now apply below_flush | now split].
  - unfold beforeunload. destruct (unload_listeners w); [now split | now apply below_flush].
  - destruct (suspended w !! i) as [k|] eqn:Hk; [|rewrite flush_resume_none; now auto].
    assert (Hq : queue (this w) = []).
    { apply Hempty. destruct Hone as [[_ Hs] | [Hp _]]; [|exact Hp].
      rewrite Hs in Hk. discriminate. }
    rewrite (flush_resume_some i o w k Hk). unfold getQueueSize. cbn.
    split; [|discriminate].
    destruct (sendBatch_settle (awaiting k) o).2; cbn; rewrite Hq; [cbn; lia|].
    rewrite app_nil_r, Hm, length_slice_requeue_50. lia.
  - now split.
Qed.

Lemma calm_run_below (acts : list Action) (w : World) :
  batcher_inv w ->
  getQueueSize w < 50 /\ (isProcessing (this w) = true -> queue (this w) = []) ->
  calm w acts -> getQueueSize (run acts w) < 50.
Proof.
  revert w. induction acts as [|a acts IH]; intros w Hinv Hlt Hcalm; [exact (proj1 Hlt)|].
  destruct Hcalm as [Hok Hrest].
  change (run (a :: acts) w) with (run acts (step w a)).
  apply IH; [now apply inv_step | | exact Hrest].
  apply calm_step_below; [assumption | assumption | now split].
Qed.

(** C3 (as amended).  In every reachable world an [add] of a truthy event
    returns with a flush in flight or with fewer than 50 events queued; and
    in an execution from a construction in which no event is added while a
    flush is in flight, the queue holds fewer than 50 events after every
    step, whether the sends succeed or fail. *)
Theorem queue_below_capacity_outside_flush :
  (forall w now e d,
      reachable w -> truthy d = true ->
      isProcessing (this (add now e d w)) = true \/ getQueueSize (add now e d w) < 50) /\
  (forall host endpoint key batch_interval callback acts,
      let w0 := constructor host endpoint key batch_interval callback in
      calm w0 acts -> getQueueSize (run acts w0) < 50).
Proof.
  split.
  - intros w now e d Hr Ht. destruct (reachable_inv w Hr) as [Hm _].
    destruct (add_enqueues now e d w Ht) as (_ & _ & [H | H]).
    + destruct H as (Hq & _ & _ & Hp & [Hroom | Hbusy]).
      * right. unfold getQueueSize. rewrite Hq. rewrite Hm in Hroom. lia.
      * left. congruence.
    + left. tauto.
  - intros host endpoint key bi cb acts w0 Hcalm.
    apply calm_run_below; [apply inv_constructor | | exact Hcalm].
    unfold w0, constructor, getQueueSize.
    destruct (host_window host); cbn; (split; [lia | discriminate]).
Qed.

(** C3, the claim as stated fails.  One hundred and one events added in a
    row to a batcher without a backend: the fiftieth dispatches the flush,
    the next fifty-one find it in flight, and when it completes the batcher
    is idle with 51 events queued.  With a callback that rejects, 50 events
    and then 49 more leave 74 in the queue once the send has failed. *)
Lemma queue_exceeds_capacity :
  let w := run (replicate 101 (Add 1000 demo_sync (VObj 2%positive)) ++ [Settle 0 all_fulfil])
               demo_plain in
  let w' := run (replicate 99 (Add 1000 demo_sync (VObj 2%positive)) ++ [Settle 0 callback_rejects])
                demo_callback in
  (reachable w /\ isProcessing (this w) = false /\ suspended w = [] /\
   getQueueSize w = 51 /\ (maxQueueSize (this w) < Z.of_nat (getQueueSize w))%Z) /\
  (reachable w' /\ isProcessing (this w') = false /\ suspended w' = [] /\
   getQueueSize w' = 74 /\ (maxQueueSize (this w') < Z.of_nat (getQueueSize w'))%Z).
Proof.
  cbv zeta. split.
  - split; [|vm_compute; repeat split].
    unfold demo_plain. reached.
  - split; [|vm_compute; repeat split].
    unfold demo_callback. reached.
Qed.

(** ** The theorems at sample worlds *)

Lemma flush_guard_single_flight_witness :
  let w := run [Add 1000 demo_sync (VObj 2%positive)] demo_callback in
  let acts := [Add 1001 demo_sync (VObj 1%positive); Flush demo_sync;
               Add 1002 demo_sync VNull; Add 1003 demo_sync (VStr "x")] in
  let w2 := run acts (flush demo_sync w) in
  flush demo_sync demo_callback = demo_callback /\
  can_flush w /\
  Forall add_or_flush acts /\
  flush demo_sync w2 = w2 /\
  sends (trace w2) = [{| events := [VObj 10%positive]; batchSize := 1; timestamp := 1000 |}] /\
  getQueueSize w2 = 2 /\
  reachable w2 /\
  one_in_flight w2.
Proof.
  cbv zeta.
  set (w := run [Add 1000 demo_sync (VObj 2%positive)] demo_callback).
  set (acts := [Add 1001 demo_sync (VObj 1%positive); Flush demo_sync;
                Add 1002 demo_sync VNull; Add 1003 demo_sync (VStr "x")]).
  assert (Hgo : can_flush w) by (split; [discriminate | reflexivity]).
  assert (Hall : Forall add_or_flush acts) by (repeat constructor).
  assert (Hr : reachable (run acts (flush demo_sync w))).
  { apply reachable_run. apply (reachable_step (Flush demo_sync)).
    unfold w, demo_callback. reached. }
  destruct flush_guard_single_flight as (Hskip & Hover & Hone).
  destruct (Hover demo_sync demo_sync w acts Hgo Hall) as (H1 & H2 & _ & _ & H5 & _).
  split; [apply Hskip; left; reflexivity|].
  split; [exact Hgo|]. split; [exact Hall|]. split; [exact H1|].
  split; [rewrite H2; reflexivity|].
  split; [unfold getQueueSize; rewrite H5; reflexivity|].
  split; [exact Hr | exact (Hone _ Hr)].
Defined.

Lemma failed_flush_requeues_tail_witness :
  let w := run [Add 1000 demo_sync (VObj 2%positive); Flush demo_sync;
                Add 1001 demo_sync (VObj 2%positive)] demo_callback in
  let k := {| batch := [VObj 10%positive]; awaiting := AwaitingCallback |} in
  reachable w /\
  suspended w !! 0 = Some k /\
  send_fails k callback_rejects /\
  queue (this (flush_resume 0 callback_rejects w)) = [VObj 10%positive; VObj 11%positive].
Proof.
  cbv zeta.
  set (w := run _ demo_callback).
  set (k := {| batch := [VObj 10%positive]; awaiting := AwaitingCallback |}).
  assert (Hr : reachable w) by (unfold w, demo_callback; reached).
  assert (Hk : suspended w !! 0 = Some k) by reflexivity.
  assert (Hf : send_fails k callback_rejects) by reflexivity.
  destruct (failed_flush_requeues_tail w 0 k callback_rejects Hr Hk Hf) as (H1 & _).
  split; [exact Hr|]. split; [exact Hk|]. split; [exact Hf|].
  rewrite H1. reflexivity.
Defined.

Lemma queue_below_capacity_outside_flush_witness :
  let w := run (replicate 49 (Add 1000 demo_sync (VObj 2%positive))) demo_plain in
  let acts := [Add 1000 demo_sync (VObj 2%positive); Flush demo_sync; Add 1001 demo_sync VNull;
               Settle 0 callback_rejects; Add 1002 demo_sync (VObj 2%positive)] in
  reachable w /\
  truthy (VObj 2%positive) = true /\
  getQueueSize w = 49 /\
  isProcessing (this (add 1000 demo_sync (VObj 2%positive) w)) = true /\
  calm demo_callback acts /\
  errors_logged (trace (run acts demo_callback)) = ["[Data Batcher] Callback error:";
                                                    "[Data Batcher] Error sending batch:"] /\
  getQueueSize (run acts demo_callback) = 2 /\
  getQueueSize (run acts demo_callback) < 50.
Proof.
  cbv zeta.
  set (w := run _ demo_plain).
  set (acts := [_; _; _; _; _]).
  assert (Hr : reachable w) by (unfold w, demo_plain; reached).
  assert (Hcalm : calm demo_callback acts) by (vm_compute; repeat split; discriminate).
  destruct queue_below_capacity_outside_flush as [Hadd Hrun].
  split; [exact Hr|]. split; [reflexivity|]. split; [reflexivity|].
  split.
  - destruct (Hadd w 1000%Z demo_sync (VObj 2%positive) Hr eq_refl) as [H | H]; [exact H|].
    reflexivity.
  - split; [exact Hcalm|]. split; [reflexivity|]. split; [reflexivity|].
    exact (Hrun _ _ _ _ _ acts Hcalm).
Defined.

Lemma add_appends_and_flushes_at_capacity_witness :
  let calls := replicate 49 (1000%Z, demo_sync, VObj 2%positive) in
  let w1 := run (add_calls calls) demo_plain in
  let w2 := add 1001 demo_sync (VObj 2%positive) w1 in
  reachable demo_plain /\
  Forall (fun c => truthy c.2 = true) calls /\
  getQueueSize w1 = 49 /\
  trace w1 = [] /\
  heap w2 !! 59%positive = Some {[ "_timestamp" := VNum 1001; "a" := VNum 1 ]} /\
  length (sends (trace w2)) = 1 /\
  getQueueSize w2 = 0 /\
  isProcessing (this w2) = true.
Proof.
  cbv zeta.
  set (calls := replicate 49 (1000%Z, demo_sync, VObj 2%positive)).
  assert (Hr : reachable demo_plain) by (unfold demo_plain; do 5 eexists; exists []; reflexivity).
  assert (Hall : Forall (fun c => truthy c.2 = true) calls)
    by (apply Forall_replicate; reflexivity).
  destruct (add_appends_and_flushes_at_capacity demo_plain calls 1001 demo_sync
              (VObj 2%positive) Hr Hall eq_refl) as (HA & _ & HB & _ & _ & _ & _ & HC).
  destruct HA as (H1 & H2 & _); [vm_compute; lia|].
  destruct HC as (_ & HC); [reflexivity|].
  destruct HC as (H3 & _ & H4 & _ & H5); [reflexivity|].
  split; [exact Hr|]. split; [exact Hall|].
  split; [rewrite H1; reflexivity|].
  split; [rewrite H2; reflexivity|].
  split; [rewrite HB; reflexivity|].
  split; [rewrite H3; reflexivity|].
  split; [exact H4 | exact H5].
Defined.

Lemma no_backend_delivery_succeeds_witness :
  let w := run [Add 1000 demo_sync (VObj 2%positive)] demo_plain in
  can_flush w /\
  uses_transport (this w) = false /\
  getQueueSize w = 1 /\
  getQueueSize (flush_resume 0 callback_rejects (flush demo_sync w)) = 0.
Proof.
  cbv zeta.
  set (w := run _ demo_plain).
  assert (Hgo : can_flush w) by (split; [discriminate | reflexivity]).
  assert (Hu : uses_transport (this w) = false) by reflexivity.
  destruct (no_backend_delivery_succeeds demo_sync callback_rejects w Hgo Hu)
    as (_ & _ & _ & _ & _ & _ & H & _).
  split; [exact Hgo|]. split; [exact Hu|]. split; [reflexivity|]. exact H.
Defined.

Lemma flush_always_clears_flag_witness :
  let w := run [Add 1000 demo_sync (VObj 2%positive)] demo_callback in
  let throwing := {| date_now := 1000; callback_throws := true; stringify_fails := false |} in
  let w2 := flush_resume 0 all_fulfil (flush throwing w) in
  reachable w /\
  can_flush w /\
  isProcessing (this (flush throwing w)) = true /\
  isProcessing (this w2) = false /\
  queue (this w2) = [VObj 10%positive] /\
  length (sends (trace (flush demo_sync w2))) = 2.
Proof.
  cbv zeta.
  set (w := run _ demo_callback).
  set (throwing := {| date_now := 1000; callback_throws := true; stringify_fails := false |}).
  assert (Hr : reachable w) by (unfold w, demo_callback; reached).
  assert (Hgo : can_flush w) by (split; [discriminate | reflexivity]).
  destruct flush_always_clears_flag as [_ Hfull].
  destruct (Hfull throwing demo_sync all_fulfil w Hr Hgo) as (H1 & H2 & _ & H4).
  change (length (suspended w)) with 0 in H2, H4.
  split; [exact Hr|]. split; [exact Hgo|]. split; [exact H1|]. split; [exact H2|].
  split; [reflexivity|].
  rewrite H4; [reflexivity | discriminate].
Defined.

Lemma destroy_does_not_disable_witness :
  let w := run [Add 1000 demo_sync (VObj 2%positive)] demo_plain in
  let acts := Settle 0 all_fulfil :: replicate 50 (Add 1001 demo_sync (VObj 2%positive)) in
  let w1 := run acts (destroy demo_sync w) in
  Forall timer_free acts /\
  timers w = {[ 1%positive := VNum 30000 ]} /\
  timers w1 = ∅ /\
  map batchSize (sends (trace w1)) = [1; 50] /\
  isProcessing (this w1) = true.
Proof.
  cbv zeta.
  set (w := run _ demo_plain).
  set (acts := Settle 0 all_fulfil :: _).
  assert (Hall : Forall timer_free acts).
  { constructor; [exact I|]. apply Forall_replicate. exact I. }
  destruct (destroy_does_not_disable demo_sync w) as (_ & Hrun & _).
  split; [exact Hall|]. split; [reflexivity|].
  rewrite (Hrun acts Hall). split; [reflexivity|]. split; reflexivity.
Defined.

(** ** What the batcher holds *)

Lemma run_invariant (P : World -> Prop) (acts : list Action) (w : World) :
  (forall w a, P w -> P (step w a)) -> P w -> P (run acts w).
Proof.
  intros Hstep. revert w. induction acts as [|a acts IH]; intros w H; [exact H|].
  change (run (a :: acts) w) with (run acts (step w a)). apply IH, Hstep, H.
Qed.

Lemma run_app (acts1 acts2 : list Action) (w : World) :
  run (acts1 ++ acts2) w = run acts2 (run acts1 w).
Proof. unfold run. apply foldl_app. Qed.

Lemma pending_flush (e : Sync) (w : World) :
  batcher_inv w -> pending (flush e w) = pending w.
Proof.
  intros [_ Hone]. destruct (flush_cases e w) as [[-> _] | Hgo]; [reflexivity|].
  rewrite (flush_go e w Hgo). destruct Hgo as [_ Hidle].
  destruct Hone as [[_ Hs] | [Hbusy _]]; [|congruence].
  unfold pending. cbn. rewrite Hs. cbn. now rewrite !app_nil_r.
Qed.

Lemma pending_queue_push (now : Z) (d : value) (w : World) :
  pending (queue_push now d w) = pending w ++ [VObj (fresh (dom (heap w)))].
Proof. unfold pending. cbn. now rewrite app_assoc. Qed.

Lemma pending_stopBatchInterval (w : World) : pending (stopBatchInterval w) = pending w.
Proof. unfold stopBatchInterval. now destruct (interval (this w)). Qed.

Lemma pending_flush_resume (i : nat) (o : Outcome) (w : World) :
  batcher_inv w -> pending (flush_resume i o w) `sublist_of` pending w.
Proof.
  intros [_ Hone]. destruct (suspended w !! i) as [k|] eqn:Hk.
  - rewrite (flush_resume_some i o w k Hk).
    destruct Hone as [[_ Hs] | [_ [k' Hs]]]; rewrite Hs in Hk; [discriminate|].
    destruct i; [|discriminate]. cbn in Hk. inversion Hk; subst k'.
    unfold pending. rewrite Hs. cbn. rewrite app_nil_r.
    destruct (sendBatch_settle (awaiting k) o).2; cbn.
    + now apply sublist_inserts_l.
    + apply sublist_app; [apply sublist_drop | reflexivity].
  - now rewrite flush_resume_none.
Qed.

Lemma step_pending (a : Action) (w : World) :
  batcher_inv w -> pending (step w a) `sublist_of` pending w ++ pushed a w.
Proof.
  intros Hinv.
  destruct a; cbn [step pushed]; rewrite ?app_nil_r.
  - destruct (truthy data) eqn:Ht.
    + rewrite (add_unfold now e data w Ht).
      destruct (_ <=? _)%Z.
      * rewrite pending_flush by now apply inv_queue_push.
        now rewrite pending_queue_push.
      * now rewrite pending_queue_push.
    + rewrite add_falsy by exact Ht. now rewrite app_nil_r.
  - now rewrite pending_flush.
  - unfold pending. cbn. rewrite app_nil_r. now apply sublist_inserts_r.
  - unfold destroy. rewrite pending_flush by now apply inv_stopBatchInterval.
    now rewrite pending_stopBatchInterval.
  - reflexivity.
  - now rewrite pending_stopBatchInterval.
  - unfold interval_fires. destruct (timers w !! id); [|reflexivity].
    destruct (0 <? _)%nat; [now rewrite pending_flush | reflexivity].
  - unfold beforeunload. destruct (unload_listeners w); [reflexivity|].
    now rewrite pending_flush.
  - now apply pending_flush_resume.
  - reflexivity.
Qed.

Lemma heap_flush_resume (i : nat) (o : Outcome) (w : World) :
  heap (flush_resume i o w) = heap w.
Proof.
  destruct (suspended w !! i) as [k|] eqn:Hk.
  - now rewrite (flush_resume_some i o w k Hk).
  - now rewrite flush_resume_none.
Qed.

Lemma heap_destroy (e : Sync) (w : World) : heap (destroy e w) = heap w.
Proof.
  unfold destroy. rewrite heap_flush. unfold stopBatchInterval.
  now destruct (interval (this w)).
Qed.

Lemma dom_heap_step (a : Action) (w : World) : dom (heap w) ⊆ dom (heap (step w a)).
Proof.
  destruct a; cbn [step].
  - destruct (truthy data) eqn:Ht.
    + rewrite (heap_add_truthy now e data w Ht), dom_insert_L. set_solver.
    + now rewrite add_falsy.
  - now rewrite heap_flush.
  - reflexivity.
  - now rewrite heap_destroy.
  - reflexivity.
  - unfold stopBatchInterval. now destruct (interval (this w)).
  - unfold interval_fires. destruct (timers w !! id); [|reflexivity].
    destruct (0 <? _)%nat; [now rewrite heap_flush | reflexivity].
  - unfold beforeunload. destruct (unload_listeners w); [reflexivity|].
    now rewrite heap_flush.
  - now rewrite heap_flush_resume.
  - cbn. rewrite dom_insert_L. set_solver.
Qed.

Lemma pushed_new (a : Action) (w : World) :
  Forall (fun v => ref_in (heap (step w a)) v /\ ~ ref_in (heap w) v) (pushed a w).
Proof.
  destruct a; cbn [pushed]; try constructor.
  destruct (truthy data) eqn:Ht; constructor; [|constructor].
  cbn [step]. rewrite (heap_add_truthy now e data w Ht). split.
  - eexists. split; [reflexivity|]. rewrite dom_insert_L. set_solver.
  - intros (l & Heq & Hin). inversion Heq; subst l. exact (is_fresh _ Hin).
Qed.

Lemma distinct_refs_step (a : Action) (w : World) :
  distinct_refs w -> distinct_refs (step w a).
Proof.
  intros (Hinv & Hnd & Hin).
  pose proof (dom_heap_step a w) as Hdom.
  pose proof (pushed_new a w) as Hpush.
  assert (Hnew : Forall (ref_in (heap (step w a))) (pushed a w))
    by (eapply Forall_impl; [exact Hpush|]; now intros v [H _]).
  assert (Hfresh : Forall (fun v => ~ ref_in (heap w) v) (pushed a w))
    by (eapply Forall_impl; [exact Hpush|]; now intros v [_ H]).
  pose proof (step_pending a w Hinv) as Hsub.
  assert (Hall : Forall (ref_in (heap (step w a))) (pending w ++ pushed a w)).
  { apply Forall_app. split; [|exact Hnew].
    eapply Forall_impl; [exact Hin|]. intros v (l & -> & Hl). exists l. split; [reflexivity|].
    now apply Hdom. }
  split; [now apply inv_step|]. split.
  - refine (sublist_NoDup _ _ _ Hsub). apply NoDup_app. split; [exact Hnd|]. split.
    + intros v Hv Hv'. rewrite Forall_forall in Hin, Hfresh.
      exact (Hfresh v Hv' (Hin v Hv)).
    + unfold pushed. destruct a; try constructor.
      destruct (truthy data); [apply NoDup_singleton | constructor].
  - rewrite Forall_forall in Hall |- *. intros v Hv. apply Hall.
    eapply elem_of_sublist; eassumption.
Qed.

Lemma distinct_refs_reachable (w : World) : reachable w -> distinct_refs w.
Proof.
  intros (host & endpoint & key & bi & cb & acts & ->).
  apply run_invariant; [intros; now apply distinct_refs_step|].
  split; [apply inv_constructor|].
  unfold pending, constructor. destruct (host_window host); cbn; split; constructor.
Qed.

(** X1.  No action reorders, duplicates or invents an event: what the
    batcher holds after a step (the parked batch, then the queue) is a
    subsequence of what it held before, followed by the reference this step
    pushed. *)
Theorem pending_shrinks_or_appends (w : World) (a : Action) :
  reachable w -> pending (step w a) `sublist_of` pending w ++ pushed a w.
Proof. intros Hr. apply step_pending, reachable_inv, Hr. Qed.

(** X2.  In every reachable world the events the batcher holds are distinct
    objects of the heap: no event is queued twice, and the queue shares no
    event with a batch in flight. *)
Theorem pending_events_distinct (w : World) :
  reachable w ->
  NoDup (pending w) /\
  Forall (ref_in (heap w)) (pending w) /\
  (forall k v, k ∈ suspended w -> v ∈ batch k -> v ∉ queue (this w)).
Proof.
  intros Hr. destruct (distinct_refs_reachable w Hr) as ((_ & Hone) & Hnd & Hin).
  split; [exact Hnd|]. split; [exact Hin|].
  intros k v Hk Hv Hq.
  destruct Hone as [[_ Hs] | [_ [k' Hs]]]; rewrite Hs in Hk.
  - now apply elem_of_nil in Hk.
  - apply list_elem_of_singleton in Hk. subst k'.
    unfold pending in Hnd. rewrite Hs in Hnd. cbn in Hnd. rewrite app_nil_r in Hnd.
    apply NoDup_app in Hnd as (_ & Hdisj & _). exact (Hdisj v Hv Hq).
Qed.

(** ** What the batcher sends *)

Lemma transport_calls_app (t1 t2 : list Effect) :
  transport_calls (t1 ++ t2) = transport_calls t1 ++ transport_calls t2.
Proof. unfold transport_calls. apply omap_app. Qed.

Lemma transport_calls_transport_effects (e : Sync) (w : World) (p : Payload) :
  transport_calls (transport_effects e w p) =
  transport_call (apiEndpoint (this w)) (apiKey (this w)) (onDataCallback (this w))
    (JSON_stringify_throws e (heap w) (events p)) p.
Proof.
  unfold transport_effects, transport_call.
  destruct (truthy (onDataCallback (this w)) && is_function (onDataCallback (this w))); cbn.
  - now destruct (callback_throws e).
  - destruct (truthy (apiEndpoint (this w))); cbn; [|reflexivity].
    now destruct (JSON_stringify_throws e (heap w) (events p)).
Qed.

Lemma delivers_nil (endpoint key callback : value) : delivers endpoint key callback [] [].
Proof.
  unfold delivers. destruct (_ && _); [reflexivity|].
  destruct (truthy endpoint); [|reflexivity]. now exists [].
Qed.

Lemma delivers_app (endpoint key callback : value) (ps ps' : list Payload)
    (calls calls' : list Effect) :
  delivers endpoint key callback ps calls -> delivers endpoint key callback ps' calls' ->
  delivers endpoint key callback (ps ++ ps') (calls ++ calls').
Proof.
  unfold delivers. destruct (_ && _).
  - intros -> ->. now rewrite map_app.
  - destruct (truthy endpoint).
    + intros (q & Hq & ->) (q' & Hq' & ->). exists (q ++ q').
      split; [now apply sublist_app | now rewrite map_app].
    + now intros -> ->.
Qed.

Lemma delivers_transport_call (endpoint key callback : value) (throws : bool) (p : Payload) :
  delivers endpoint key callback [p] (transport_call endpoint key callback throws p).
Proof.
  unfold delivers, transport_call. destruct (_ && _); [reflexivity|].
  destruct (truthy endpoint); [|reflexivity].
  destruct throws; [exists [] | exists [p]]; split; try reflexivity.
  apply sublist_nil_l.
Qed.

Lemma transport_calls_settle (st : SendState) (o : Outcome) :
  transport_calls (sendBatch_settle st o).1 = [].
Proof.
  destruct st; cbn; try reflexivity.
  - now destruct (callback_fulfils o).
  - destruct (fetch_fulfils o); [destruct (response_ok o)|]; reflexivity.
Qed.

Lemma same_config_refl (b : DataBatcher) : same_config b b.
Proof. now repeat split. Qed.

Lemma sound_extension_nil (b : DataBatcher) : sound_extension b [].
Proof. split; [constructor | apply delivers_nil]. Qed.

Lemma trace_flush (e : Sync) (w : World) :
  exists ext,
    trace (flush e w) = trace w ++ ext /\
    sound_extension (this w) ext /\
    same_config (this w) (this (flush e w)).
Proof.
  destruct (flush_cases e w) as [[-> _] | Hgo].
  - exists []. rewrite app_nil_r. auto using sound_extension_nil, same_config_refl.
  - rewrite (flush_go e w Hgo). eexists. split; [reflexivity|]. split; [|now repeat split].
    destruct Hgo as [Hq _]. split; cbn.
    + rewrite sends_transport_effects. constructor; [|constructor]. now split.
    + rewrite sends_transport_effects, transport_calls_transport_effects.
      apply delivers_transport_call.
Qed.

Lemma trace_flush_resume (i : nat) (o : Outcome) (w : World) :
  exists ext,
    trace (flush_resume i o w) = trace w ++ ext /\
    sound_extension (this w) ext /\
    same_config (this w) (this (flush_resume i o w)).
Proof.
  destruct (suspended w !! i) as [k|] eqn:Hk.
  - rewrite (flush_resume_some i o w k Hk). eexists. split; [reflexivity|]. split.
    + split; rewrite ?sends_app, ?transport_calls_app, ?sends_settle, ?transport_calls_settle;
        destruct (sendBatch_settle (awaiting k) o).2; cbn;
        first [constructor | apply delivers_nil].
    + destruct (sendBatch_settle (awaiting k) o).2; now repeat split.
  - rewrite flush_resume_none by exact Hk. exists []. rewrite app_nil_r.
    auto using sound_extension_nil, same_config_refl.
Qed.

Lemma trace_step (a : Action) (w : World) :
  exists ext,
    trace (step w a) = trace w ++ ext /\
    sound_extension (this w) ext /\
    same_config (this w) (this (step w a)).
Proof.
  assert (Hnone : forall w', trace w' = trace w -> same_config (this w) (this w') ->
            exists ext, trace w' = trace w ++ ext /\ sound_extension (this w) ext /\
                        same_config (this w) (this w')).
  { intros w' Ht Hc. exists []. rewrite app_nil_r. auto using sound_extension_nil. }
  destruct a; cbn [step].
  - destruct (truthy data) eqn:Ht.
    + rewrite (add_unfold now e data w Ht). destruct (_ <=? _)%Z.
      * exact (trace_flush e (queue_push now data w)).
      * apply Hnone; [reflexivity | now repeat split].
    + rewrite add_falsy by exact Ht. apply Hnone; [reflexivity | apply same_config_refl].
  - apply trace_flush.
  - apply Hnone; [reflexivity | now repeat split].
  - unfold destroy.
    assert (Hs : stopBatchInterval w = with_timers (timers (stopBatchInterval w)) (next_timer w) w)
      by (unfold stopBatchInterval; destruct (interval (this w)); [reflexivity | now destruct w]).
    rewrite Hs. exact (trace_flush e (with_timers _ _ w)).
  - apply Hnone; [reflexivity | now repeat split].
  - unfold stopBatchInterval. destruct (interval (this w));
      (apply Hnone; [reflexivity | now repeat split]).
  - unfold interval_fires. destruct (timers w !! id);
      [|apply Hnone; [reflexivity | apply same_config_refl]].
    destruct (0 <? _)%nat; [apply trace_flush|].
    apply Hnone; [reflexivity | apply same_config_refl].
  - unfold beforeunload. destruct (unload_listeners w); [|apply trace_flush].
    apply Hnone; [reflexivity | apply same_config_refl].
  - apply trace_flush_resume.
  - apply Hnone; [reflexivity | now repeat split].
Qed.

(** Along an execution the configuration stays and the trace is sound. *)
Lemma run_sound (endpoint key callback : value) (acts : list Action) (w : World) :
  apiEndpoint (this w) = endpoint -> apiKey (this w) = key ->
  onDataCallback (this w) = callback ->
  Forall well_formed (sends (trace w)) ->
  delivers endpoint key callback (sends (trace w)) (transport_calls (trace w)) ->
  let w' := run acts w in
  apiEndpoint (this w') = endpoint /\ apiKey (this w') = key /\
  onDataCallback (this w') = callback /\
  Forall well_formed (sends (trace w')) /\
  delivers endpoint key callback (sends (trace w')) (transport_calls (trace w')).
Proof.
  intros He Hk Hc Hwf Htc.
  apply (run_invariant (fun w' =>
    apiEndpoint (this w') = endpoint /\ apiKey (this w') = key /\
    onDataCallback (this w') = callback /\
    Forall well_formed (sends (trace w')) /\
    delivers endpoint key callback (sends (trace w')) (transport_calls (trace w')))); [|auto].
  clear. intros w a (He & Hk & Hc & Hwf & Htc).
  destruct (trace_step a w) as (ext & Ht & (Hwf' & Htc') & (He' & Hk' & Hc')).
  rewrite He, Hk, Hc in *. rewrite Ht, sends_app, transport_calls_app.
  repeat split; try assumption.
  - apply Forall_app. now split.
  - now apply delivers_app.
Qed.

Lemma constructor_config host endpoint key bi cb :
  let w := constructor host endpoint key bi cb in
  apiEndpoint (this w) = endpoint /\ apiKey (this w) = key /\
  onDataCallback (this w) = default_param VNull cb /\ trace w = [].
Proof. unfold constructor. destruct (host_window host); now repeat split. Qed.

(** X3.  The batcher never sends an empty batch, and [batchSize] is the
    number of events of the payload, in every execution. *)
Theorem sent_batches_well_formed (w : World) :
  reachable w -> Forall well_formed (sends (trace w)).
Proof.
  intros (host & endpoint & key & bi & cb & acts & ->).
  destruct (constructor_config host endpoint key bi cb) as (He & Hk & Hc & Ht).
  refine (proj1 (proj2 (proj2 (proj2 (run_sound _ _ _ acts _ He Hk Hc _ _))))).
  - rewrite Ht. constructor.
  - rewrite Ht. apply delivers_nil.
Qed.


(** ** The periodic timer *)

Lemma timers_flush (e : Sync) (w : World) :
  timers (flush e w) = timers w /\ next_timer (flush e w) = next_timer w /\
  interval (this (flush e w)) = interval (this w).
Proof.
  destruct (flush_cases e w) as [[-> _] | Hgo]; [now repeat split|].
  now rewrite (flush_go e w Hgo).
Qed.

Lemma timers_flush_resume (i : nat) (o : Outcome) (w : World) :
  timers (flush_resume i o w) = timers w /\
  next_timer (flush_resume i o w) = next_timer w /\
  interval (this (flush_resume i o w)) = interval (this w).
Proof.
  destruct (suspended w !! i) as [k|] eqn:Hk.
  - rewrite (flush_resume_some i o w k Hk). cbn.
    now destruct (sendBatch_settle (awaiting k) o).2.
  - now rewrite flush_resume_none.
Qed.

Lemma timers_add (now : Z) (e : Sync) (d : value) (w : World) :
  timers (add now e d w) = timers w /\ next_timer (add now e d w) = next_timer w /\
  interval (this (add now e d w)) = interval (this w).
Proof.
  unfold add. destruct (negb (truthy d)); [now repeat split|].
  destruct (_ <=? _)%Z; [|now repeat split].
  destruct (timers_flush e (queue_push now d w)) as (-> & -> & ->). now repeat split.
Qed.

(** Every action but the three that manage the timer leaves it alone. *)
Lemma timers_step (a : Action) (w : World) :
  match a with
  | StartBatchInterval | StopBatchInterval | Destroy _ => True
  | _ => timers (step w a) = timers w /\ next_timer (step w a) = next_timer w /\
         interval (this (step w a)) = interval (this w)
  end.
Proof.
  destruct a; cbn [step]; try exact I; try (now repeat split).
  - apply timers_add.
  - apply timers_flush.
  - unfold interval_fires. destruct (timers w !! id); [|now repeat split].
    destruct (0 <? _)%nat; [apply timers_flush | now repeat split].
  - unfold beforeunload. destruct (unload_listeners w); [now repeat split | apply timers_flush].
  - apply timers_flush_resume.
Qed.

Lemma timers_destroy (e : Sync) (w : World) :
  timers (destroy e w) = timers (stopBatchInterval w) /\
  next_timer (destroy e w) = next_timer w /\
  interval (this (destroy e w)) = interval (this w).
Proof.
  unfold destroy. destruct (timers_flush e (stopBatchInterval w)) as (-> & -> & ->).
  split; [reflexivity|]. unfold stopBatchInterval.
  destruct (interval (this w)) eqn:Hi; cbn; rewrite ?Hi; split; reflexivity.
Qed.

Lemma run_timers (id : positive) (d : value) (acts : list Action) (w : World) :
  Forall no_restart acts ->
  interval (this w) = Some id ->
  timers w = {[ id := d ]} \/ timers w = ∅ ->
  interval (this (run acts w)) = Some id /\
  timers (run acts w) = if stops acts then ∅ else timers w.
Proof.
  revert w. induction acts as [|a acts IH]; intros w Hall Hi Ht; [now split|].
  inversion Hall as [|? ? Ha Hall']; subst.
  change (run (a :: acts) w) with (run acts (step w a)).
  assert (Hdel : delete id (timers w) = ∅).
  { destruct Ht as [-> | ->]; [apply delete_singleton_eq | apply delete_empty]. }
  pose proof (timers_step a w) as Hstep.
  destruct a; cbn in Ha; try contradiction;
    try (destruct Hstep as (Ht' & _ & Hi');
         destruct (IH _ Hall' (eq_trans Hi' Hi)) as [H1 H2];
         [rewrite Ht'; exact Ht|];
         split; [exact H1|]; rewrite H2, Ht'; reflexivity).
  - destruct (timers_destroy e w) as (Ht' & _ & Hi'). cbn [step].
    unfold stopBatchInterval in Ht'. rewrite Hi in Ht'. cbn in Ht'. rewrite Hdel in Ht'.
    destruct (IH (destroy e w) Hall' (eq_trans Hi' Hi)) as [H1 H2]; [now right|].
    split; [exact H1|]. rewrite H2, Ht'. now destruct (stops acts).
  - cbn [step]. unfold stopBatchInterval at 1 2. rewrite Hi.
    destruct (IH (with_timers (delete id (timers w)) (next_timer w) w) Hall' Hi) as [H1 H2];
      [right; exact Hdel|].
    split; [exact H1|]. rewrite H2. cbn [timers with_timers]. rewrite Hdel.
    now destruct (stops acts).
Qed.

(** X5.  The constructor registers one timer, with the batch interval as its
    delay (30000 when none is given).  As long as [startBatchInterval] is
    not called again, that timer is the only one, it is live until the first
    [stopBatchInterval] or [destroy], and from then on no timer of the
    batcher ever fires. *)
Theorem interval_lives_until_stopped host endpoint key batch_interval callback acts :
  Forall no_restart acts ->
  let w := run acts (constructor host endpoint key batch_interval callback) in
  let id := host_next_timer host in
  interval (this w) = Some id /\
  timers w =
    (if stops acts then ∅ else {[ id := default_param (VNum 30000) batch_interval ]}) /\
  (stops acts = true -> forall i e, interval_fires i e w = w).
Proof.
  intros Hall w id.
  assert (H0 : interval (this (constructor host endpoint key batch_interval callback)) = Some id /\
               timers (constructor host endpoint key batch_interval callback) =
               {[ id := default_param (VNum 30000) batch_interval ]}).
  { unfold constructor. destruct (host_window host); cbn; split; try reflexivity;
      apply insert_empty. }
  destruct H0 as [Hi Ht].
  destruct (run_timers id (default_param (VNum 30000) batch_interval) acts _ Hall Hi)
    as [H1 H2]; [now left|].
  fold w in H1, H2. rewrite Ht in H2.
  split; [exact H1|]. split; [exact H2|].
  intros Hs i e. unfold interval_fires. rewrite H2, Hs. now rewrite lookup_empty.
Qed.

Lemma timers_below_step (a : Action) (w : World) : timers_below w -> timers_below (step w a).
Proof.
  intros Hb. pose proof (timers_step a w) as Hstep.
  destruct a; try (destruct Hstep as (Ht & Hn & _); unfold timers_below; now rewrite Ht, Hn).
  - cbn [step]. destruct (timers_destroy e w) as (Ht & Hn & _).
    unfold timers_below. rewrite Ht, Hn. unfold stopBatchInterval.
    destruct (interval (this w)) as [id'|]; [|exact Hb].
    cbn. intros id [x Hx]. apply lookup_delete_Some in Hx as [_ Hx]. apply Hb. eauto.
  - unfold timers_below. cbn. intros id [x Hx].
    apply lookup_insert_Some in Hx as [[<- _] | [_ Hx]]; [lia|].
    specialize (Hb id (ex_intro _ x Hx)). lia.
  - cbn [step]. unfold stopBatchInterval.
    destruct (interval (this w)) as [id'|]; [|exact Hb].
    unfold timers_below. cbn. intros id [x Hx].
    apply lookup_delete_Some in Hx as [_ Hx]. apply Hb. eauto.
Qed.

Lemma timers_below_reachable (w : World) : reachable w -> timers_below w.
Proof.
  intros (host & endpoint & key & bi & cb & acts & ->).
  apply run_invariant; [intros; now apply timers_below_step|].
  unfold timers_below, constructor. destruct (host_window host); cbn;
    intros id [x Hx]; apply lookup_insert_Some in Hx as [[<- _] | [_ Hx]];
    try lia; now rewrite lookup_empty in Hx.
Qed.

Lemma interval_fires_live (id : positive) (e : Sync) (w : World) :
  is_Some (timers w !! id) -> interval_fires id e w = flush e w.
Proof.
  intros [d Hd]. unfold interval_fires. rewrite Hd.
  destruct (queue (this w)) eqn:Hq; cbn; [|reflexivity].
  symmetry. apply flush_skip. now left.
Qed.

(** X6.  [startBatchInterval] does not cancel the timer it replaces: a timer
    that is live when the interval is started again stays live after
    [stopBatchInterval] and after [destroy], which cancel only the newest
    one, and it keeps flushing the queue whenever it fires. *)
Theorem restart_leaks_timer (w : World) (id : positive) (e : Sync) :
  reachable w -> is_Some (timers w !! id) ->
  let w1 := stopBatchInterval (startBatchInterval w) in
  let w2 := destroy e (startBatchInterval w) in
  timers w1 !! id = timers w !! id /\
  timers w2 !! id = timers w !! id /\
  timers w1 !! next_timer w = None /\
  interval (this w1) = Some (next_timer w) /\
  stopBatchInterval w1 = w1 /\
  (forall e', interval_fires id e' w1 = flush e' w1).
Proof.
  intros Hr Hlive w1 w2.
  pose proof (timers_below_reachable w Hr id Hlive) as Hlt.
  assert (Hne : next_timer w <> id) by lia.
  assert (Ht1 : timers w1 = delete (next_timer w) (<[next_timer w := batchInterval (this w)]> (timers w)))
    by reflexivity.
  assert (H1 : timers w1 !! id = timers w !! id).
  { rewrite Ht1, lookup_delete_ne, lookup_insert_ne by exact Hne. reflexivity. }
  split; [exact H1|]. split.
  { unfold w2. destruct (timers_destroy e (startBatchInterval w)) as (-> & _). exact H1. }
  split; [rewrite Ht1; apply lookup_delete_eq|].
  split; [reflexivity|]. split.
  - unfold stopBatchInterval at 1. change (interval (this w1)) with (Some (next_timer w)).
    cbn [with_timers]. rewrite Ht1, delete_delete_eq. unfold w1, stopBatchInterval. cbn.
    reflexivity.
  - intros e'. apply interval_fires_live. now rewrite H1.
Qed.

(** ** A flush and its settlement *)

Lemma flush_round (e : Sync) (o : Outcome) (w : World) :
  batcher_inv w -> can_flush w ->
  let ok := (sendBatch_settle (send_state e w) o).2 in
  let w2 := flush_resume 0 o (flush e w) in
  queue (this w2) =
    (if ok then [] else drop (length (queue (this w)) - 25) (queue (this w))) /\
  isProcessing (this w2) = false /\
  suspended w2 = [] /\
  same_config (this w) (this w2) /\
  heap w2 = heap w /\
  trace w2 =
    trace w ++
    SendBatch (flush_payload e w) :: transport_effects e w (flush_payload e w) ++
    (sendBatch_settle (send_state e w) o).1 ++
    (if ok then [] else [ConsoleError "[Data Batcher] Error sending batch:"]).
Proof.
  intros [Hm Hone] Hgo ok w2.
  assert (Hs : suspended w = []).
  { destruct Hgo as [_ Hidle]. destruct Hone as [[_ Hs] | [Hbusy _]]; [exact Hs | congruence]. }
  assert (Hk : suspended (flush e w) !! 0 =
               Some {| batch := queue (this w); awaiting := send_state e w |}).
  { rewrite (flush_go e w Hgo). cbn [suspended]. now rewrite Hs. }
  pose proof (flush_resume_some 0 o (flush e w) _ Hk) as Hr. fold w2 in Hr.
  cbn [awaiting batch] in Hr. fold ok in Hr. rewrite Hr.
  rewrite (flush_go e w Hgo). cbn. rewrite Hs, Hm, slice_requeue_50.
  destruct ok; cbn; rewrite ?app_nil_r, <- ?app_assoc; repeat split.
Qed.

Lemma send_state_same_config (e : Sync) (w w' : World) :
  same_config (this w) (this w') -> heap w' = heap w -> queue (this w') = queue (this w) ->
  send_state e w' = send_state e w.
Proof. intros (He & _ & Hc) Hh Hq. unfold send_state. now rewrite He, Hc, Hh, Hq. Qed.

Lemma existsb_drop {A} (f : A -> bool) (n : nat) (l : list A) :
  existsb f l = false -> existsb f (drop n l) = false.
Proof.
  revert n. induction l as [|x l IH]; intros n H; [now destruct n|].
  cbn in H. apply orb_false_iff in H as [Hx Hl].
  destruct n; cbn; [now rewrite Hx, Hl | now apply IH].
Qed.

Lemma drop_nonempty {A} (l : list A) (n : nat) : l <> [] -> drop (length l - n) l = [] -> n = 0.
Proof.
  intros Hl Hd. apply (f_equal length) in Hd. rewrite length_drop in Hd.
  destruct l; [congruence|]. cbn in Hd. lia.
Qed.

(** X7.  When the batch is posted (it serializes) and the server answers
    with a 2xx response whose body is not JSON, [response.json()] rejects
    and the flush takes the failure path: the last 25 events of the accepted
    batch are queued again, and the next flush posts them a second time. *)
Theorem accepted_batch_posted_again (e e' : Sync) (w : World) :
  reachable w -> can_flush w ->
  is_function (onDataCallback (this w)) = false ->
  truthy (apiEndpoint (this w)) = true ->
  JSON_stringify_throws e (heap w) (queue (this w)) = false ->
  stringify_fails e' = false ->
  let post := FetchPost (apiEndpoint (this w)) (apiKey (this w)) in
  let kept := drop (length (queue (this w)) - 25) (queue (this w)) in
  let w2 := flush_resume 0 accepted_without_json (flush e w) in
  queue (this w2) = kept /\
  errors_logged (trace w2) =
    errors_logged (trace w) ++ ["[Data Batcher] Error sending batch:"] /\
  transport_calls (trace (flush e' w2)) =
    transport_calls (trace w) ++
    [post (flush_payload e w);
     post {| events := kept; batchSize := length kept; timestamp := date_now e' |}].
Proof.
  intros Hr Hgo Hcb Hep Hser Hser' post kept w2.
  pose proof (reachable_inv w Hr) as Hinv.
  assert (Hmode : truthy (onDataCallback (this w)) && is_function (onDataCallback (this w)) = false)
    by (rewrite Hcb; apply andb_false_r).
  assert (Hst : send_state e w = AwaitingFetch).
  { unfold send_state. cbn zeta. now rewrite Hmode, Hep, Hser. }
  assert (Hte : transport_effects e w (flush_payload e w) = [post (flush_payload e w)]).
  { unfold transport_effects. cbn [events flush_payload]. now rewrite Hmode, Hep, Hser. }
  destruct (flush_round e accepted_without_json w Hinv Hgo) as (Hq & Hp & Hs & Hc & Hh & Ht).
  fold w2 in Hq, Hp, Hs, Hc, Hh, Ht. rewrite Hst in Hq, Ht. cbn in Hq, Ht. fold kept in Hq.
  rewrite Hte in Ht.
  split; [exact Hq|]. split.
  { rewrite Ht, errors_logged_app. reflexivity. }
  assert (Hgo2 : can_flush w2).
  { split; [|exact Hp]. rewrite Hq. intros Habs.
    pose proof (drop_nonempty _ _ (proj1 Hgo) Habs). discriminate. }
  assert (Hser2 : JSON_stringify_throws e' (heap w2) (queue (this w2)) = false).
  { unfold JSON_stringify_throws in *. rewrite Hh, Hq, Hser', orb_false_r.
    apply orb_false_iff in Hser as [Hser _]. now apply existsb_drop. }
  rewrite (flush_go e' w2 Hgo2). cbn [trace].
  assert (Hte2 : transport_effects e' w2 (flush_payload e' w2) =
                 [post (flush_payload e' w2)]).
  { destruct Hc as (He2 & Hk2 & Hc2). unfold transport_effects, post.
    cbn [events flush_payload]. rewrite Hc2, He2, Hk2, Hmode, Hep, Hser2. reflexivity. }
  rewrite Hte2, Ht, !transport_calls_app. cbn. rewrite <- app_assoc.
  unfold flush_payload at 2. rewrite Hq. reflexivity.
Qed.

Lemma rounds_cons (c : Sync * Outcome) (cycles : list (Sync * Outcome)) (w : World) :
  run (rounds (c :: cycles)) w = run (rounds cycles) (flush_resume 0 c.2 (flush c.1 w)).
Proof. reflexivity. Qed.

Lemma failing_rounds (cycles : list (Sync * Outcome)) (w : World) :
  batcher_inv w -> can_flush w -> length (queue (this w)) <= 25 ->
  Forall (fun c => (sendBatch_settle (send_state c.1 w) c.2).2 = false) cycles ->
  let w' := run (rounds cycles) w in
  queue (this w') = queue (this w) /\
  isProcessing (this w') = false /\
  map events (sends (trace w')) =
    map events (sends (trace w)) ++ replicate (length cycles) (queue (this w)).
Proof.
  revert w. induction cycles as [|[e o] cycles IH]; intros w Hinv Hgo Hlen Hall.
  - cbn. rewrite app_nil_r. destruct Hgo. auto.
  - inversion Hall as [|? ? Hfail Hall']; subst. cbn [fst snd] in Hfail.
    rewrite rounds_cons. cbn [fst snd].
    destruct (flush_round e o w Hinv Hgo) as (Hq & Hp & Hs & Hc & Hh & Ht).
    rewrite Hfail in Hq, Ht.
    replace (length (queue (this w)) - 25) with 0 in Hq by lia. cbn [drop] in Hq.
    set (w2 := flush_resume 0 o (flush e w)) in *.
    assert (Hinv2 : batcher_inv w2) by (apply inv_flush_resume, inv_flush, Hinv).
    assert (Hgo2 : can_flush w2) by (split; [rewrite Hq; apply Hgo | exact Hp]).
    destruct (IH w2 Hinv2 Hgo2) as (H1 & H2 & H3).
    { rewrite Hq. exact Hlen. }
    { eapply Forall_impl; [exact Hall'|]. intros c Hcf.
      now rewrite (send_state_same_config c.1 _ _ Hc Hh Hq). }
    cbn zeta. rewrite H1, Hq. split; [reflexivity|]. split; [exact H2|].
    rewrite H3, Hq, Ht. rewrite !sends_app. cbn [sends omap]. cbn.
    rewrite sends_app, sends_transport_effects, sends_app, sends_settle.
    cbn. rewrite map_app. cbn. rewrite <- app_assoc. reflexivity.
Qed.

(** X8.  A queue of at most 25 events survives any number of failed flushes
    intact: each round sends all of them again and puts all of them back, in
    order, and the batcher is idle after every round. *)
Theorem small_batch_survives_failures (cycles : list (Sync * Outcome)) (w : World) :
  reachable w -> can_flush w -> length (queue (this w)) <= 25 ->
  Forall (fun c => (sendBatch_settle (send_state c.1 w) c.2).2 = false) cycles ->
  let w' := run (rounds cycles) w in
  queue (this w') = queue (this w) /\
  isProcessing (this w') = false /\
  map events (sends (trace w')) =
    map events (sends (trace w)) ++ replicate (length cycles) (queue (this w)).
Proof. intros Hr. apply failing_rounds, reachable_inv, Hr. Qed.

(** ** Events that do not serialize *)

Lemma nested_self (n : nat) (h : gmap loc (gmap string value)) (l : loc)
    (o : gmap string value) (k : string) :
  h !! l = Some o -> is_function (get "toJSON" o) = false -> o !! k = Some (VObj l) ->
  nested n h (VObj l) = true.
Proof.
  intros Hl Hj Hk. induction n as [|n IH]; cbn; rewrite Hl, Hj; [reflexivity|].
  apply existsb_exists. exists (VObj l). split; [|exact IH].
  apply list_elem_of_In. change (VObj l ∈ snd <$> map_to_list o).
  apply list_elem_of_fmap. exists (k, VObj l).
  split; [reflexivity|]. now apply elem_of_map_to_list.
Qed.

Lemma nested_flat (n : nat) (h : gmap loc (gmap string value)) (l : loc)
    (o : gmap string value) :
  h !! l = Some o -> (forall k l', o !! k <> Some (VObj l')) ->
  nested (S n) h (VObj l) = false.
Proof.
  intros Hl Hflat. cbn. rewrite Hl. destruct (is_function _); [reflexivity|].
  apply not_true_is_false. intros Hex. apply existsb_exists in Hex as (v & Hin & Hv).
  apply list_elem_of_In in Hin. change (v ∈ snd <$> map_to_list o) in Hin.
  apply list_elem_of_fmap in Hin as ([k v'] & -> & Hin).
  apply elem_of_map_to_list in Hin. cbn in Hv.
  destruct v'; try (destruct n; discriminate). exact (Hflat k l0 Hin).
Qed.

Lemma stringify_throws_circular (e : Sync) (h : gmap loc (gmap string value))
    (b : list value) (v : value) :
  v ∈ b -> circular h v = true -> JSON_stringify_throws e h b = true.
Proof.
  intros Hin Hc. unfold JSON_stringify_throws. apply orb_true_iff. left.
  apply existsb_exists. exists v. split; [now apply list_elem_of_In | exact Hc].
Qed.

Lemma poisoned_rounds (cycles : list (Sync * Outcome)) (w : World) (v : value) :
  batcher_inv w -> can_flush w ->
  is_function (onDataCallback (this w)) = false ->
  truthy (apiEndpoint (this w)) = true ->
  v ∈ queue (this w) -> circular (heap w) v = true ->
  length (queue (this w)) <= 25 ->
  let w' := run (rounds cycles) w in
  queue (this w') = queue (this w) /\
  isProcessing (this w') = false /\
  transport_calls (trace w') = transport_calls (trace w) /\
  map events (sends (trace w')) =
    map events (sends (trace w)) ++ replicate (length cycles) (queue (this w)) /\
  errors_logged (trace w') =
    errors_logged (trace w) ++
    replicate (length cycles) "[Data Batcher] Error sending batch:".
Proof.
  revert w. induction cycles as [|[e o] cycles IH]; intros w Hinv Hgo Hcb Hep Hin Hc Hlen.
  - cbn. rewrite !app_nil_r. destruct Hgo. auto.
  - rewrite rounds_cons. cbn [fst snd].
    assert (Hmode : truthy (onDataCallback (this w)) && is_function (onDataCallback (this w))
                    = false) by (rewrite Hcb; apply andb_false_r).
    pose proof (stringify_throws_circular e (heap w) (queue (this w)) v Hin Hc) as Hthrows.
    assert (Hst : send_state e w = Rejected).
    { unfold send_state. cbn zeta. now rewrite Hmode, Hep, Hthrows. }
    assert (Hte : transport_effects e w (flush_payload e w) = []).
    { unfold transport_effects. cbn [events flush_payload]. now rewrite Hmode, Hep, Hthrows. }
    destruct (flush_round e o w Hinv Hgo) as (Hq & Hp & Hs & Hcfg & Hh & Ht).
    rewrite Hst in Hq, Ht. rewrite Hte in Ht. cbn in Hq, Ht.
    replace (length (queue (this w)) - 25) with 0 in Hq by lia. cbn [drop] in Hq.
    set (w2 := flush_resume 0 o (flush e w)) in *.
    assert (Hinv2 : batcher_inv w2) by (apply inv_flush_resume, inv_flush, Hinv).
    assert (Hgo2 : can_flush w2) by (split; [rewrite Hq; apply Hgo | exact Hp]).
    destruct Hcfg as (He2 & Hk2 & Hc2).
    destruct (IH w2 Hinv2 Hgo2) as (H1 & H2 & H3 & H4 & H5).
    { now rewrite Hc2. }
    { now rewrite He2. }
    { now rewrite Hq. }
    { now rewrite Hh. }
    { now rewrite Hq. }
    cbn zeta. rewrite H1, H3, H4, H5, Hq, Ht.
    split; [reflexivity|]. split; [exact H2|].
    rewrite !transport_calls_app, !sends_app, !errors_logged_app, map_app.
    cbn. rewrite !app_nil_r, <- !app_assoc. repeat split.
Qed.

(** X20.  An event that does not serialize blocks the queue it is in.  When
    batches are posted and the queue holds a circular event among at most 25
    events, no round of [flush] and the settlement of its send posts
    anything, whatever the host answers: [JSON.stringify] throws before
    [fetch] is called, the flush logs the error and puts the whole batch
    back, and the next round finds the queue as it was.  An object that
    holds itself is circular; one that holds no object is not. *)
Theorem circular_event_blocks_queue (cycles : list (Sync * Outcome)) (w : World) (v : value) :
  reachable w -> can_flush w ->
  is_function (onDataCallback (this w)) = false ->
  truthy (apiEndpoint (this w)) = true ->
  v ∈ queue (this w) -> circular (heap w) v = true ->
  length (queue (this w)) <= 25 ->
  let w' := run (rounds cycles) w in
  queue (this w') = queue (this w) /\
  isProcessing (this w') = false /\
  transport_calls (trace w') = transport_calls (trace w) /\
  map events (sends (trace w')) =
    map events (sends (trace w)) ++ replicate (length cycles) (queue (this w)) /\
  errors_logged (trace w') =
    errors_logged (trace w) ++
    replicate (length cycles) "[Data Batcher] Error sending batch:" /\
  (forall l o k,
      heap w !! l = Some o -> is_function (get "toJSON" o) = false ->
      o !! k = Some (VObj l) -> circular (heap w) (VObj l) = true) /\
  (forall l o,
      heap w !! l = Some o -> (forall k l', o !! k <> Some (VObj l')) ->
      circular (heap w) (VObj l) = false).
Proof.
  intros Hr Hgo Hcb Hep Hin Hc Hlen w'.
  destruct (poisoned_rounds cycles w v (reachable_inv w Hr) Hgo Hcb Hep Hin Hc Hlen)
    as (H1 & H2 & H3 & H4 & H5).
  repeat (split; [assumption|]). split.
  - intros l o k Hl Hj Hk. exact (nested_self _ _ _ _ _ Hl Hj Hk).
  - intros l o Hl Hflat. unfold circular.
    destruct (size (heap w)) as [|n] eqn:Hsize; [|now apply (nested_flat n _ l o)].
    apply map_size_empty_inv in Hsize. rewrite Hsize in Hl. discriminate.
Qed.

(** ** The SDK's configuration *)

Lemma sdk_config_lookup (config : gmap string value) (k : string) :
  sdk_config config !! k = (config ∪ sdk_defaults) !! k.
Proof.
  unfold sdk_config.
  destruct (config !! k) as [v|] eqn:Hk.
  { now rewrite !(lookup_union_Some_l _ _ _ _ Hk). }
  rewrite !lookup_union_r by exact Hk.
  unfold sdk_defaults. cbn [list_to_map foldr curry fst snd uncurry].
  rewrite !lookup_insert.
  repeat (case_decide; [subst k; unfold get; rewrite Hk; reflexivity|]).
  reflexivity.
Qed.

(** X9.  The SDK's [||] fall-backs act only for options the caller leaves
    out: an option the caller supplies is kept as it is, a falsy one
    included, so [this.config] is the caller's object over the table of
    defaults, and the batcher is built from those values. *)
Theorem sdk_config_caller_wins (config : gmap string value) :
  sdk_config config = config ∪ sdk_defaults /\
  (forall host,
      let w := sdk_dataBatcher host config in
      apiEndpoint (this w) = default (VStr "") (config !! "apiEndpoint") /\
      apiKey (this w) = default (VStr "") (config !! "apiKey") /\
      batchInterval (this w) =
        default_param (VNum 30000) (default (VNum 30000) (config !! "batchInterval")) /\
      timers w = {[ host_next_timer host := batchInterval (this w) ]}).
Proof.
  assert (Hget : forall k d, sdk_defaults !! k = Some d ->
                 get k (sdk_config config) = default d (config !! k)).
  { intros k d Hd. unfold get. rewrite sdk_config_lookup.
    destruct (config !! k) as [v|] eqn:Hk.
    - now rewrite (lookup_union_Some_l _ _ _ _ Hk).
    - rewrite lookup_union_r by exact Hk. now rewrite Hd. }
  split; [apply map_eq, sdk_config_lookup|].
  intros host w. unfold w, sdk_dataBatcher.
  rewrite (Hget "apiEndpoint" (VStr "") eq_refl), (Hget "apiKey" (VStr "") eq_refl),
    (Hget "batchInterval" (VNum 30000) eq_refl).
  unfold constructor. destruct (host_window host); cbn; repeat split; apply insert_empty.
Qed.


(** ** Consent *)

Section Consent.
Context {J : Privacy.Json} {JB : Privacy.JsonBooleans J}.

Lemma stored_after_store (b : bool) (p : Privacy.Page) (items : gmap string string) :
  Privacy.localStorage p = Privacy.Available items false ->
  Privacy.getStoredConsent (Privacy.storeConsent (VBool b) p) = VBool b.
Proof.
  intros Hls. unfold Privacy.storeConsent, Privacy.getStoredConsent. rewrite Hls. cbn.
  rewrite lookup_insert_eq.
  pose proof (Privacy.stringify_bool_nonempty b) as Hne.
  destruct (Privacy.JSON_stringify (VBool b)) eqn:Hs; [congruence|].
  cbn. rewrite <- Hs, Privacy.parse_stringify_bool. reflexivity.
Qed.

Lemma constructor_reads (ls : Privacy.LocalStorage) (out : list Effect) (m : value) :
  let fresh_page :=
    {| Privacy.manager := {| Privacy.mode := default_param (VStr "opt-in") m;
                             Privacy.storageKey := "seo_sdk_consent";
                             Privacy.consentGiven := VBool false |};
       Privacy.localStorage := ls; Privacy.console := out |} in
  Privacy.hasConsent (Privacy.constructor ls out m) =
  match Privacy.getStoredConsent fresh_page with
  | VNull => VBool (Privacy.mode_default (default_param (VStr "opt-in") m))
  | v => v
  end.
Proof.
  cbv zeta. unfold Privacy.constructor, Privacy.init, Privacy.mode_default.
  destruct (Privacy.getStoredConsent _); cbn; try reflexivity.
  now destruct (_ || _).
Qed.

Lemma stored_nothing (p : Privacy.Page) :
  Privacy.no_decision (Privacy.storageKey (Privacy.manager p)) (Privacy.localStorage p) ->
  Privacy.getStoredConsent p = VNull.
Proof.
  unfold Privacy.no_decision, Privacy.getStoredConsent.
  destruct (Privacy.localStorage p) as [|items t]; [reflexivity|].
  destruct (items !! _) as [stored|]; [|reflexivity].
  intros [-> | [Hp | Hp]]; [reflexivity | |]; rewrite Hp; now destruct stored.
Qed.

Lemma consent_after_decision (b : bool) (p : Privacy.Page) (items : gmap string string)
    (out : list Effect) (m : value) :
  Privacy.localStorage p = Privacy.Available items false ->
  Privacy.storageKey (Privacy.manager p) = "seo_sdk_consent" ->
  let p' := Privacy.storeConsent (VBool b) (Privacy.set_consent (VBool b) p) in
  Privacy.hasConsent p' = VBool b /\
  Privacy.hasConsent (Privacy.constructor (Privacy.localStorage p') out m) = VBool b.
Proof.
  intros Hls Hkey p'.
  assert (Hp' : p' = Privacy.set_storage
            (Privacy.Available (<["seo_sdk_consent" := Privacy.JSON_stringify (VBool b)]> items)
               false) (Privacy.set_consent (VBool b) p)).
  { unfold p', Privacy.storeConsent. cbn. now rewrite Hls, Hkey. }
  split; [now rewrite Hp'|].
  rewrite constructor_reads. rewrite Hp'. cbn [Privacy.localStorage Privacy.set_storage].
  unfold Privacy.getStoredConsent. cbn. rewrite lookup_insert_eq.
  pose proof (Privacy.stringify_bool_nonempty b) as Hne.
  destruct (Privacy.JSON_stringify (VBool b)) eqn:Hs; [congruence|].
  cbn. rewrite <- Hs, Privacy.parse_stringify_bool. reflexivity.
Qed.

(** X11.  A decision is kept: after [giveConsent] or [optIn] on a working
    storage the manager has consent and so has every manager constructed
    later on that storage, in any mode; after [rejectConsent] or [optOut]
    neither has, the modes that default to consent included. *)
Theorem consent_decision_persists (p : Privacy.Page) (items : gmap string string)
    (out : list Effect) (m : value) :
  Privacy.localStorage p = Privacy.Available items false ->
  Privacy.storageKey (Privacy.manager p) = "seo_sdk_consent" ->
  let later q := Privacy.hasConsent (Privacy.constructor (Privacy.localStorage q) out m) in
  (Privacy.hasConsent (Privacy.giveConsent p) = VBool true /\
   later (Privacy.giveConsent p) = VBool true) /\
  (Privacy.hasConsent (Privacy.optIn p) = VBool true /\
   later (Privacy.optIn p) = VBool true) /\
  (Privacy.hasConsent (Privacy.rejectConsent p) = VBool false /\
   later (Privacy.rejectConsent p) = VBool false) /\
  (Privacy.hasConsent (Privacy.optOut p) = VBool false /\
   later (Privacy.optOut p) = VBool false).
Proof.
  intros Hls Hkey later.
  pose proof (consent_after_decision true p items out m Hls Hkey) as Ht.
  pose proof (consent_after_decision false p items out m Hls Hkey) as Hf.
  repeat split; first [apply Ht | apply Hf].
Qed.

(** X12.  With nothing usable stored (no storage, no item, an empty item,
    an item that is not JSON or the text of [null]) a new manager takes the
    default of its mode: consent in the modes [opt-out] and [auto], none in
    every other mode, and none when no mode is given. *)
Theorem no_decision_means_mode_default (ls : Privacy.LocalStorage) (out : list Effect)
    (m : value) :
  Privacy.no_decision "seo_sdk_consent" ls ->
  Privacy.hasConsent (Privacy.constructor ls out m) =
    VBool (Privacy.mode_default (default_param (VStr "opt-in") m)) /\
  Privacy.hasConsent (Privacy.constructor ls out (VStr "opt-out")) = VBool true /\
  Privacy.hasConsent (Privacy.constructor ls out (VStr "auto")) = VBool true /\
  Privacy.hasConsent (Privacy.constructor ls out VUndefined) = VBool false.
Proof.
  intros Hno.
  assert (H : forall m', Privacy.hasConsent (Privacy.constructor ls out m') =
            VBool (Privacy.mode_default (default_param (VStr "opt-in") m'))).
  { intros m'. rewrite constructor_reads. now rewrite stored_nothing. }
  repeat split; rewrite H; reflexivity.
Qed.

(** X13.  When the storage cannot be written, [giveConsent] still sets the
    consent of the manager in memory and logs the storage error, but keeps
    nothing: with nothing stored before, a manager constructed afterwards
    falls back to the default of its mode. *)
Theorem consent_not_persisted_without_storage (p : Privacy.Page) (out : list Effect)
    (m : value) :
  (Privacy.localStorage p = Privacy.Unavailable \/
   exists items, Privacy.localStorage p = Privacy.Available items true) ->
  Privacy.no_decision "seo_sdk_consent" (Privacy.localStorage p) ->
  let p' := Privacy.giveConsent p in
  Privacy.hasConsent p' = VBool true /\
  Privacy.localStorage p' = Privacy.localStorage p /\
  Privacy.console p' =
    Privacy.console p ++ [ConsoleError "[Privacy Manager] Storage error:";
                          ConsoleLog "[Privacy Manager] Consent given"] /\
  Privacy.hasConsent (Privacy.constructor (Privacy.localStorage p') out m) =
    VBool (Privacy.mode_default (default_param (VStr "opt-in") m)).
Proof.
  intros Hls Hno p'.
  assert (Hp' : p' = Privacy.log (ConsoleLog "[Privacy Manager] Consent given")
                  (Privacy.log (ConsoleError "[Privacy Manager] Storage error:")
                     (Privacy.set_consent (VBool true) p))).
  { unfold p', Privacy.giveConsent, Privacy.storeConsent. cbn.
    destruct Hls as [-> | [items ->]]; reflexivity. }
  rewrite Hp'. cbn. rewrite <- app_assoc. repeat split.
  rewrite constructor_reads. now rewrite stored_nothing.
Qed.

(** X14.  [clearConsent] on a storage that is there removes the stored
    decision and the consent of the manager; a manager constructed afterwards
    takes the default of its mode, so in mode [opt-out] consent is back.
    When the storage is not there, [clearConsent] logs the error and leaves
    the consent of the manager as it was. *)
Theorem clearConsent_edges (p : Privacy.Page) (out : list Effect) (m : value) :
  Privacy.storageKey (Privacy.manager p) = "seo_sdk_consent" ->
  let p' := Privacy.clearConsent p in
  (Privacy.localStorage p = Privacy.Unavailable ->
   Privacy.hasConsent p' = Privacy.hasConsent p /\
   Privacy.console p' = Privacy.console p ++ [ConsoleError "[Privacy Manager] Storage error:"]) /\
  (Privacy.localStorage p <> Privacy.Unavailable ->
   Privacy.hasConsent p' = VBool false /\
   Privacy.console p' = Privacy.console p /\
   Privacy.hasConsent (Privacy.constructor (Privacy.localStorage p') out m) =
     VBool (Privacy.mode_default (default_param (VStr "opt-in") m)) /\
   Privacy.hasConsent (Privacy.constructor (Privacy.localStorage p') out (VStr "opt-out")) =
     VBool true).
Proof.
  intros Hkey p'. unfold p', Privacy.clearConsent. split.
  - intros ->. split; reflexivity.
  - intros Hls. destruct (Privacy.localStorage p) as [|items t]; [congruence|].
    assert (H : forall m', Privacy.hasConsent
                (Privacy.constructor (Privacy.Available (delete "seo_sdk_consent" items) t) out m')
              = VBool (Privacy.mode_default (default_param (VStr "opt-in") m'))).
    { intros m'. rewrite constructor_reads. rewrite stored_nothing; [reflexivity|].
      cbn. now rewrite lookup_delete_eq. }
    rewrite Hkey. cbn. repeat split; rewrite H; reflexivity.
Qed.

(** X15.  Whether the SDK starts collecting when it is constructed: with a
    stored decision, exactly when that decision is consent, whatever the
    configuration; with nothing stored, exactly when the caller's
    [privacyMode] is [opt-out] or [auto], so not when the option is left out. *)
Theorem sdk_starts_by_decision_or_mode (ls : Privacy.LocalStorage) (out : list Effect)
    (config : gmap string value) :
  (forall items t b,
      ls = Privacy.Available items t ->
      items !! "seo_sdk_consent" = Some (Privacy.JSON_stringify (VBool b)) ->
      sdk_starts ls out config = b) /\
  (Privacy.no_decision "seo_sdk_consent" ls ->
   sdk_starts ls out config =
     Privacy.mode_default
       (default_param (VStr "opt-in") (default (VStr "opt-in") (config !! "privacyMode"))) /\
   (config !! "privacyMode" = None -> sdk_starts ls out config = false)).
Proof.
  assert (Hmode : get "privacyMode" (sdk_config config) =
                  default (VStr "opt-in") (config !! "privacyMode")).
  { unfold get. rewrite sdk_config_lookup.
    destruct (config !! "privacyMode") as [v|] eqn:Hcfg.
    - now rewrite (lookup_union_Some_l _ _ _ _ Hcfg).
    - now rewrite lookup_union_r by exact Hcfg. }
  unfold sdk_starts, sdk_privacyManager. rewrite Hmode. split.
  - intros items t b -> Hitem. rewrite constructor_reads.
    unfold Privacy.getStoredConsent. cbn. rewrite Hitem.
    pose proof (Privacy.stringify_bool_nonempty b) as Hne.
    destruct (Privacy.JSON_stringify (VBool b)) eqn:Hs; [congruence|].
    cbn. rewrite <- Hs, Privacy.parse_stringify_bool. now destruct b.
  - intros Hno.
    assert (H : Privacy.hasConsent (Privacy.constructor ls out
                  (default (VStr "opt-in") (config !! "privacyMode"))) =
                VBool (Privacy.mode_default (default_param (VStr "opt-in")
                  (default (VStr "opt-in") (config !! "privacyMode"))))).
    { rewrite constructor_reads. now rewrite stored_nothing. }
    rewrite H. split; [reflexivity|]. intros Hnone. now rewrite Hnone.
Qed.

End Consent.

(** ** The SDK's calls of the batcher *)

Lemma pending_with_heap (h : gmap loc (gmap string value)) (w : World) :
  pending (with_heap h w) = pending w.
Proof. reflexivity. Qed.

Lemma pending_add (now : Z) (e : Sync) (d : value) (w : World) :
  batcher_inv w -> truthy d = true ->
  pending (add now e d w) = pending w ++ [VObj (fresh (dom (heap w)))].
Proof.
  intros Hinv Ht. rewrite (add_unfold now e d w Ht). destruct (_ <=? _)%Z.
  - rewrite pending_flush by now apply inv_queue_push. apply pending_queue_push.
  - apply pending_queue_push.
Qed.

Lemma event_fields (sid : value) (t2 t3 : Z) (l : loc) :
  let m : gmap string value :=
    <["_timestamp" := VNum t3]>
      {[ "sessionId" := sid; "timestamp" := VNum t2; "engagement" := VObj l ]} in
  m !! "timestamp" = Some (VNum t2) /\ m !! "_timestamp" = Some (VNum t3) /\
  m !! "engagement" = Some (VObj l).
Proof. repeat split. Qed.

(** One tick, step by step: the heap after it, and what the batcher holds. *)
Lemma engagement_tick_spec (sid : value) (tr : EngagementTracker) (t1 t2 t3 : Z)
    (e : Sync) (w : World) :
  batcher_inv w ->
  let d := tracker_data tr in
  let h1 := <[d := <["timeOnPage" := VNum (t1 - startTime tr)]> (default ∅ (heap w !! d))]>
              (heap w) in
  let l1 := fresh (dom h1) in
  let h2 := <[l1 := {[ "engagement" := VObj d ]}]> h1 in
  let l2 := fresh (dom h2) in
  let literal : gmap string value :=
    {[ "sessionId" := sid; "timestamp" := VNum t2; "engagement" := VObj l1 ]} in
  let h3 := <[l2 := literal]> h2 in
  let l3 := fresh (dom h3) in
  let w1 := engagement_tick sid tr t1 t2 t3 e w in
  heap w1 = <[l3 := <["_timestamp" := VNum t3]> literal]> h3 /\
  pending w1 = pending w ++ [VObj l3] /\
  batcher_inv w1 /\
  (l1 ∉ dom h1) /\ (l2 ∉ dom h2) /\ (l3 ∉ dom h3).
Proof.
  intros Hinv d h1 l1 h2 l2 literal h3 l3 w1.
  assert (Hsize : (0 <? size (own_props h2 (VObj l1)))%nat = true).
  { cbn. unfold h2. rewrite lookup_insert_eq. cbn. now rewrite map_size_singleton. }
  assert (Hw1 : w1 = add t3 e (VObj l2) (with_heap h3 w)).
  { unfold w1, engagement_tick, getData. cbn [heap with_heap].
    fold d. fold h1. fold l1. fold h2. rewrite Hsize. cbn [truthy andb].
    fold l2. reflexivity. }
  assert (Hinv3 : batcher_inv (with_heap h3 w)) by exact Hinv.
  split.
  { rewrite Hw1, heap_add_truthy by reflexivity. cbn [heap with_heap own_props].
    unfold h3 at 2. rewrite lookup_insert_eq. reflexivity. }
  split.
  { rewrite Hw1, pending_add by (exact Hinv3 || reflexivity). reflexivity. }
  split; [rewrite Hw1; now apply inv_add|].
  repeat split; apply is_fresh.
Qed.

Lemma two_ticks_heap (h0 : gmap loc (gmap string value)) (d a1 a2 a3 b1 b2 b3 : loc)
    (md m1 m2 m3 nd n1 n2 n3 : gmap string value) :
  let h1 := <[a3 := m3]> (<[a2 := m2]> (<[a1 := m1]> (<[d := md]> h0))) in
  let h2 := <[b3 := n3]> (<[b2 := n2]> (<[b1 := n1]> (<[d := nd]> h1))) in
  a1 ∉ dom (<[d := md]> h0) ->
  a2 ∉ dom (<[a1 := m1]> (<[d := md]> h0)) ->
  a3 ∉ dom (<[a2 := m2]> (<[a1 := m1]> (<[d := md]> h0))) ->
  b1 ∉ dom (<[d := nd]> h1) ->
  b2 ∉ dom (<[b1 := n1]> (<[d := nd]> h1)) ->
  b3 ∉ dom (<[b2 := n2]> (<[b1 := n1]> (<[d := nd]> h1))) ->
  h2 !! a3 = Some m3 /\ h2 !! a1 = Some m1 /\
  h2 !! b3 = Some n3 /\ h2 !! b1 = Some n1 /\ h2 !! d = Some nd.
Proof.
  intros h1 h2 Ha1 Ha2 Ha3 Hb1 Hb2 Hb3. unfold h2, h1 in *. clear h1 h2.
  rewrite !dom_insert_L in *.
  assert (a2 <> a1) by set_solver. assert (a3 <> a1) by set_solver.
  assert (b1 <> d) by set_solver. assert (b1 <> a1) by set_solver.
  assert (b1 <> a3) by set_solver. assert (b2 <> d) by set_solver.
  assert (b2 <> a1) by set_solver. assert (b2 <> a3) by set_solver.
  assert (b2 <> b1) by set_solver. assert (b3 <> d) by set_solver.
  assert (b3 <> a1) by set_solver. assert (b3 <> a3) by set_solver.
  assert (b3 <> b1) by set_solver. assert (d <> a1) by set_solver.
  assert (d <> a3) by set_solver.
  clear Ha1 Ha2 Ha3 Hb1 Hb2 Hb3.
  repeat split; rewrite ?lookup_insert_eq; try reflexivity.
  - do 4 (rewrite lookup_insert_ne by assumption). apply lookup_insert_eq.
  - do 6 (rewrite lookup_insert_ne by assumption). apply lookup_insert_eq.
  - do 2 (rewrite lookup_insert_ne by assumption). apply lookup_insert_eq.
  - do 3 (rewrite lookup_insert_ne by assumption). apply lookup_insert_eq.
Qed.

Lemma engagement_tick_abstract (sid : value) (tr : EngagementTracker) (t1 t2 t3 : Z)
    (e : Sync) (w : World) :
  batcher_inv w ->
  let d := tracker_data tr in
  let w1 := engagement_tick sid tr t1 t2 t3 e w in
  exists (l1 l2 l3 : loc) (md : gmap string value),
    let literal : gmap string value :=
      {[ "sessionId" := sid; "timestamp" := VNum t2; "engagement" := VObj l1 ]} in
    heap w1 =
      <[l3 := <["_timestamp" := VNum t3]> literal]>
        (<[l2 := literal]> (<[l1 := {[ "engagement" := VObj d ]}]> (<[d := md]> (heap w)))) /\
    md !! "timeOnPage" = Some (VNum (t1 - startTime tr)) /\
    pending w1 = pending w ++ [VObj l3] /\
    batcher_inv w1 /\
    (l1 ∉ dom (<[d := md]> (heap w))) /\
    (l2 ∉ dom (<[l1 := {[ "engagement" := VObj d ]}]> (<[d := md]> (heap w)))) /\
    (l3 ∉ dom (<[l2 := literal]>
                 (<[l1 := {[ "engagement" := VObj d ]}]> (<[d := md]> (heap w))))).
Proof.
  intros Hinv d w1.
  destruct (engagement_tick_spec sid tr t1 t2 t3 e w Hinv) as (Hh & Hp & Hi & H1 & H2 & H3).
  do 4 eexists. cbv zeta.
  split; [exact Hh|]. split; [apply lookup_insert_eq|].
  split; [exact Hp|]. split; [exact Hi|]. split; [exact H1|]. split; [exact H2 | exact H3].
Qed.

(** X16.  The events the SDK's engagement timer enqueues are shallow: each
    holds its own [timestamp] and [_timestamp], but all of them reach the
    tracker's one data object, which [getData] overwrites at every tick.
    After two ticks both queued events show the time on page of the second. *)
Theorem engagement_events_share_tracker_data (sid : value) (tr : EngagementTracker)
    (t1 t2 t3 t1' t2' t3' : Z) (e e' : Sync) (w : World) :
  reachable w ->
  let w1 := engagement_tick sid tr t1 t2 t3 e w in
  let w2 := engagement_tick sid tr t1' t2' t3' e' w1 in
  let h := heap w2 in
  exists ev1 ev2,
    pending w2 = pending w ++ [ev1; ev2] /\
    field h ev1 "timestamp" = VNum t2 /\ field h ev1 "_timestamp" = VNum t3 /\
    field h ev2 "timestamp" = VNum t2' /\ field h ev2 "_timestamp" = VNum t3' /\
    field h (field h ev1 "engagement") "engagement" = VObj (tracker_data tr) /\
    field h (field h ev2 "engagement") "engagement" = VObj (tracker_data tr) /\
    field h (VObj (tracker_data tr)) "timeOnPage" = VNum (t1' - startTime tr).
Proof.
  intros Hr w1 w2 h.
  pose proof (reachable_inv w Hr) as Hinv.
  destruct (engagement_tick_abstract sid tr t1 t2 t3 e w Hinv)
    as (a1 & a2 & a3 & md & Hh1 & _ & Hp1 & Hinv1 & Hf1 & Hf2 & Hf3).
  fold w1 in Hh1, Hp1, Hinv1.
  destruct (engagement_tick_abstract sid tr t1' t2' t3' e' w1 Hinv1)
    as (b1 & b2 & b3 & nd & Hh2 & Hnd & Hp2 & _ & Hg1 & Hg2 & Hg3).
  fold w2 in Hh2, Hp2. fold h in Hh2. cbv zeta in *.
  set (d := tracker_data tr) in *.
  rewrite Hh1 in Hh2, Hg1, Hg2, Hg3.
  destruct (two_ticks_heap (heap w) d a1 a2 a3 b1 b2 b3 md
              {[ "engagement" := VObj d ]}
              {[ "sessionId" := sid; "timestamp" := VNum t2; "engagement" := VObj a1 ]}
              (<["_timestamp" := VNum t3]>
                 {[ "sessionId" := sid; "timestamp" := VNum t2; "engagement" := VObj a1 ]})
              nd {[ "engagement" := VObj d ]}
              {[ "sessionId" := sid; "timestamp" := VNum t2'; "engagement" := VObj b1 ]}
              (<["_timestamp" := VNum t3']>
                 {[ "sessionId" := sid; "timestamp" := VNum t2'; "engagement" := VObj b1 ]})
              Hf1 Hf2 Hf3 Hg1 Hg2 Hg3)
    as (Ha3 & Ha1 & Hb3 & Hb1 & Hd).
  rewrite <- Hh2 in Ha3, Ha1, Hb3, Hb1, Hd.
  exists (VObj a3), (VObj b3).
  split; [rewrite Hp2, Hp1, <- app_assoc; reflexivity|].
  unfold field, get. cbn [own_props].
  rewrite Ha3, Hb3. cbn [from_option id].
  destruct (event_fields sid t2 t3 a1) as (E1 & E2 & E3).
  destruct (event_fields sid t2' t3' b1) as (E1' & E2' & E3').
  rewrite E1, E2, E3, E1', E2', E3'. cbn [from_option id own_props].
  rewrite Ha1, Hb1, Hd. cbn [from_option id].
  rewrite lookup_singleton_eq, Hnd. repeat split.
Qed.

(** ** [destroy] and [optOut] of the SDK *)

Lemma with_timers_eta (w : World) : with_timers (timers w) (next_timer w) w = w.
Proof. now destruct w. Qed.

Lemma clearInterval_spec (h : option positive) (s : SEODataSDK) :
  dataBatcher (clearInterval h s) =
    with_timers (clear_handle h (timers (dataBatcher s))) (next_timer (dataBatcher s))
      (dataBatcher s) /\
  engagement (clearInterval h s) = engagement s /\
  engagementInterval (clearInterval h s) = engagementInterval s /\
  fullCollectionInterval (clearInterval h s) = fullCollectionInterval s /\
  isInitialized (clearInterval h s) = isInitialized s /\
  privacyManager (clearInterval h s) = privacyManager s /\
  storage (clearInterval h s) = storage s.
Proof.
  destruct h; cbn; repeat split. now rewrite with_timers_eta.
Qed.

Lemma engagement_stop_spec (s : SEODataSDK) :
  dataBatcher (engagement_stop s) =
    emit (if tracker_stops s then [ConsoleLog "[Engagement Tracker] Stopped"] else [])
      (with_timers (clear_handle (tracker_handle s) (timers (dataBatcher s)))
         (next_timer (dataBatcher s)) (dataBatcher s)) /\
  isInitialized (engagement_stop s) = isInitialized s /\
  privacyManager (engagement_stop s) = privacyManager s /\
  storage (engagement_stop s) = storage s.
Proof.
  assert (Hnil : forall w, emit [] (with_timers (timers w) (next_timer w) w) = w).
  { intros w. unfold emit. cbn. rewrite app_nil_r. now destruct w. }
  unfold engagement_stop, tracker_stops, tracker_handle.
  destruct (engagement s) as [tr|]; [|cbn [clear_handle]; now rewrite Hnil].
  destruct (isTracking tr); cbn [negb clear_handle]; [|now rewrite Hnil].
  destruct (clearInterval_spec (timeInterval tr) s) as (Hb & _ & _ & _ & Hi & Hp & Hs).
  cbn [dataBatcher on_batcher set_engagement isInitialized privacyManager storage].
  rewrite Hb, Hi, Hp, Hs. repeat split.
Qed.

(** What [destroy] of the SDK does to the batcher's world: it cancels the
    SDK's and the tracker's handles, logs, and calls [flush]. *)
Lemma sdk_destroy_batcher (e : Sync) (s : SEODataSDK) :
  let b := dataBatcher s in
  let t := clear_handle (tracker_handle s)
             (clear_handle (fullCollectionInterval s)
                (clear_handle (engagementInterval s) (timers b))) in
  let ext := if tracker_stops s then [ConsoleLog "[Engagement Tracker] Stopped"] else [] in
  dataBatcher (sdk_destroy e s) =
    emit [ConsoleLog "[SEO SDK] Destroyed"]
      (with_timers t (next_timer b) (flush e (emit ext b))) /\
  isInitialized (sdk_destroy e s) = false /\
  privacyManager (sdk_destroy e s) = privacyManager s /\
  storage (sdk_destroy e s) = storage s.
Proof.
  intros b t ext. unfold sdk_destroy.
  set (s1 := clearInterval (engagementInterval s) s).
  set (s2 := clearInterval (fullCollectionInterval s1) s1).
  destruct (clearInterval_spec (engagementInterval s) s) as (Hb1 & He1 & _ & Hf1 & _ & Hp1 & Hs1).
  fold s1 in Hb1, He1, Hf1, Hp1, Hs1.
  destruct (clearInterval_spec (fullCollectionInterval s1) s1) as (Hb2 & He2 & _ & _ & _ & Hp2 & Hs2).
  fold s2 in Hb2, He2, Hp2, Hs2.
  destruct (engagement_stop_spec s2) as (Hb3 & _ & Hp3 & Hs3).
  assert (Hst : tracker_stops s2 = tracker_stops s)
    by (unfold tracker_stops; now rewrite He2, He1).
  assert (Hth : tracker_handle s2 = tracker_handle s)
    by (unfold tracker_handle; now rewrite He2, He1).
  cbn [dataBatcher on_batcher set_isInitialized isInitialized privacyManager storage].
  rewrite Hb3, Hp3, Hs3, Hp2, Hs2, Hp1, Hs1, Hst, Hth, Hb2, Hb1, Hf1.
  cbn [timers next_timer with_timers]. fold b. fold ext.
  change (emit ext (with_timers ?x ?n ?w)) with (with_timers x n (emit ext w)).
  rewrite flush_with_timers.
  change (emit ext (with_timers ?x ?n (with_timers ?y ?m ?w)))
    with (with_timers x n (emit ext w)).
  rewrite flush_with_timers. now repeat split.
Qed.

Lemma flush_emit (ext : list Effect) (e : Sync) (w : World) :
  this (flush e (emit ext w)) = this (flush e w) /\
  suspended (flush e (emit ext w)) = suspended (flush e w) /\
  unload_listeners (flush e (emit ext w)) = unload_listeners (flush e w) /\
  (sends ext = [] -> sends (trace (flush e (emit ext w))) = sends (trace (flush e w))).
Proof.
  destruct (flush_cases e w) as [[-> Hskip] | Hgo].
  - rewrite (flush_skip e (emit ext w) Hskip). cbn. repeat split.
    intros Hext. now rewrite sends_app, Hext, app_nil_r.
  - rewrite (flush_go e w Hgo), (flush_go e (emit ext w) Hgo).
    cbn [this suspended unload_listeners trace emit]. repeat split.
    intros Hext. rewrite !sends_app, Hext, app_nil_r. reflexivity.
Qed.

(** X17.  [destroy] of the SDK flushes the batcher but never stops it.  The
    batcher is left as its own [flush] leaves it: a queue that passes the
    guard is taken whole and handed to [sendBatch], and that flush is left
    in flight.  The batcher's own timer stays registered (the SDK cancels
    only its own handles and the tracker's), as does its unload listener, so
    the batcher keeps flushing periodically after the SDK is destroyed. *)
Theorem sdk_destroy_keeps_batcher_interval (e : Sync) (s : SEODataSDK) (id : positive) :
  is_Some (timers (dataBatcher s) !! id) ->
  Some id ∉ sdk_handles s ->
  let b := dataBatcher s in
  let s' := sdk_destroy e s in
  this (dataBatcher s') = this (flush e b) /\
  suspended (dataBatcher s') = suspended (flush e b) /\
  sends (trace (dataBatcher s')) = sends (trace (flush e b)) /\
  (can_flush b ->
   queue (this (dataBatcher s')) = [] /\
   isProcessing (this (dataBatcher s')) = true /\
   sends (trace (dataBatcher s')) = sends (trace b) ++ [flush_payload e b]) /\
  timers (dataBatcher s') !! id = timers b !! id /\
  interval (this (dataBatcher s')) = interval (this b) /\
  unload_listeners (dataBatcher s') = unload_listeners b /\
  isInitialized s' = false /\
  (forall e', interval_fires id e' (dataBatcher s') = flush e' (dataBatcher s')).
Proof.
  intros Hlive Hnot b s'.
  destruct (sdk_destroy_batcher e s) as (Hb & Hi & _). fold s' b in Hb, Hi.
  set (ext := if tracker_stops s then [ConsoleLog "[Engagement Tracker] Stopped"] else []) in *.
  assert (Hext : sends ext = []) by (unfold ext; now destruct (tracker_stops s)).
  destruct (flush_emit ext e b) as (Hthis & Hsusp & Hunl & Hsends).
  specialize (Hsends Hext).
  assert (H1 : this (dataBatcher s') = this (flush e b)) by (rewrite Hb; exact Hthis).
  assert (H3 : sends (trace (dataBatcher s')) = sends (trace (flush e b))).
  { rewrite Hb. cbn [trace emit with_timers]. rewrite sends_app, Hsends. cbn.
    now rewrite app_nil_r. }
  split; [exact H1|].
  split; [rewrite Hb; exact Hsusp|].
  split; [exact H3|].
  split.
  { intros Hgo. rewrite H1, H3, (sends_flush_go e b Hgo), (flush_go e b Hgo). now repeat split. }
  assert (Hne : forall h, h ∈ sdk_handles s -> forall t : gmap positive value,
            clear_handle h t !! id = t !! id).
  { intros h Hh t. destruct h as [i|]; [|reflexivity]. cbn.
    apply lookup_delete_ne. intros ->. exact (Hnot Hh). }
  assert (Hth : tracker_handle s ∈ sdk_handles s \/ tracker_handle s = None).
  { unfold tracker_handle, sdk_handles. destruct (engagement s) as [tr|]; [|now right].
    destruct (isTracking tr); [left | now right].
    do 2 apply list_elem_of_further. apply list_elem_of_here. }
  assert (Ht : timers (dataBatcher s') !! id = timers b !! id).
  { rewrite Hb. cbn [timers emit with_timers].
    assert (Hh : forall t : gmap positive value, clear_handle (tracker_handle s) t !! id = t !! id).
    { intros t. destruct Hth as [Hin | ->]; [now apply Hne | reflexivity]. }
    rewrite Hh, !Hne; [reflexivity | unfold sdk_handles..].
    - apply list_elem_of_here.
    - apply list_elem_of_further, list_elem_of_here. }
  split; [exact Ht|].
  split; [rewrite H1; apply timers_flush|].
  split.
  { rewrite Hb. cbn [unload_listeners emit with_timers]. rewrite Hunl.
    destruct (flush_cases e b) as [[-> _] | Hgo]; [reflexivity|]. now rewrite (flush_go e b Hgo). }
  split; [exact Hi|].
  intros e'. apply interval_fires_live. now rewrite Ht.
Qed.

Section OptOut.
Context {J : Privacy.Json}.

(** X18.  Opting out sends what was collected: [optOut] of the SDK records
    the refusal and then takes the whole queue and hands it to the
    transport, as any [flush] would (a payload that is to be posted and does
    not serialize is not posted). *)
Theorem optOut_sends_queue (e : Sync) (s : SEODataSDK) :
  can_flush (dataBatcher s) ->
  let b := dataBatcher s in
  let s' := sdk_optOut e s in
  Privacy.consentGiven (privacyManager s') = VBool false /\
  isInitialized s' = false /\
  queue (this (dataBatcher s')) = [] /\
  sends (trace (dataBatcher s')) = sends (trace b) ++ [flush_payload e b] /\
  transport_calls (trace (dataBatcher s')) =
    transport_calls (trace b) ++
    transport_call (apiEndpoint (this b)) (apiKey (this b)) (onDataCallback (this b))
      (JSON_stringify_throws e (heap b) (queue (this b))) (flush_payload e b).
Proof.
  intros Hgo b s'. unfold s', sdk_optOut.
  set (page := Privacy.optOut _).
  match goal with |- context [sdk_destroy e ?x] => set (s0 := x) end.
  destruct (sdk_destroy_batcher e s0) as (Hb & Hi & Hp & _).
  assert (Hcons : exists logs, Privacy.console page = trace b ++ logs /\
                               sends logs = [] /\ transport_calls logs = []).
  { unfold page, Privacy.optOut, Privacy.storeConsent. cbn.
    destruct (storage s) as [|items [|]]; cbn; rewrite <- ?app_assoc; eexists; split;
      try reflexivity; split; reflexivity. }
  destruct Hcons as (logs & Hlogs & Hl1 & Hl2).
  set (ext := if tracker_stops s0 then [ConsoleLog "[Engagement Tracker] Stopped"] else []) in *.
  assert (He1 : sends ext = [] /\ transport_calls ext = [])
    by (unfold ext; destruct (tracker_stops s0); split; reflexivity).
  assert (Hgo0 : can_flush (emit ext (dataBatcher s0))) by exact Hgo.
  rewrite Hb, Hi, Hp. rewrite (flush_go e _ Hgo0).
  cbn [dataBatcher s0 this emit with_timers with_trace trace queue set_queue
       set_isProcessing flush_payload apiEndpoint apiKey onDataCallback heap events].
  split; [unfold page, Privacy.optOut, Privacy.storeConsent; cbn;
          destruct (storage s) as [|items [|]]; reflexivity|].
  split; [reflexivity|]. split; [reflexivity|].
  rewrite Hlogs. fold b.
  rewrite !sends_app, !transport_calls_app, Hl1, Hl2. destruct He1 as [-> ->].
  cbn. rewrite sends_transport_effects, transport_calls_transport_effects.
  rewrite !app_nil_r. split; reflexivity.
Qed.

End OptOut.

(** ** Events that have left the batcher *)

Lemma sends_flush_held (e : Sync) (w : World) :
  batcher_inv w ->
  exists new,
    sends (trace (flush e w)) = sends (trace w) ++ new /\
    Forall (held_by (flush e w)) new.
Proof.
  intros [_ Hone]. destruct (flush_cases e w) as [[-> _] | Hgo].
  - exists []. rewrite app_nil_r. split; [reflexivity | constructor].
  - exists [flush_payload e w]. split; [now apply sends_flush_go|].
    constructor; [|constructor]. intros v Hv.
    rewrite (flush_go e w Hgo). destruct Hgo as [_ Hidle].
    destruct Hone as [[_ Hs] | [Hbusy _]]; [|congruence].
    unfold pending. cbn. rewrite Hs. cbn. rewrite !app_nil_r. exact Hv.
Qed.

Lemma sends_step_held (a : Action) (w : World) :
  batcher_inv w ->
  exists new,
    sends (trace (step w a)) = sends (trace w) ++ new /\
    Forall (held_by (step w a)) new.
Proof.
  intros Hinv.
  assert (Hsame : forall w', sends (trace w') = sends (trace w) ->
            exists new, sends (trace w') = sends (trace w) ++ new /\ Forall (held_by w') new).
  { intros w' Hs. exists []. rewrite app_nil_r. split; [exact Hs | constructor]. }
  destruct a; cbn [step].
  - destruct (truthy data) eqn:Ht.
    + rewrite (add_unfold now e data w Ht). destruct (_ <=? _)%Z.
      * apply (sends_flush_held e (queue_push now data w)). now apply inv_queue_push.
      * now apply Hsame.
    + rewrite add_falsy by exact Ht. now apply Hsame.
  - now apply sends_flush_held.
  - now apply Hsame.
  - unfold destroy.
    destruct (sends_flush_held e (stopBatchInterval w)) as (new & Hs & Hh);
      [now apply inv_stopBatchInterval|].
    exists new. split; [|exact Hh]. rewrite Hs. f_equal.
    unfold stopBatchInterval. now destruct (interval (this w)).
  - now apply Hsame.
  - apply Hsame. unfold stopBatchInterval. now destruct (interval (this w)).
  - unfold interval_fires. destruct (timers w !! id); [|now apply Hsame].
    destruct (0 <? _)%nat; [now apply sends_flush_held | now apply Hsame].
  - unfold beforeunload. destruct (unload_listeners w); [now apply Hsame|].
    now apply sends_flush_held.
  - apply Hsame. apply sends_flush_resume.
  - now apply Hsame.
Qed.

Lemma gone_step (v : value) (a : Action) (w : World) :
  batcher_inv w -> ref_in (heap w) v -> v ∉ pending w ->
  ref_in (heap (step w a)) v /\ v ∉ pending (step w a).
Proof.
  intros Hinv (l & -> & Hl) Hout. split.
  - exists l. split; [reflexivity|]. now apply (dom_heap_step a w).
  - intros Hin. pose proof (elem_of_sublist _ _ _ Hin (step_pending a w Hinv)) as Hin'.
    apply elem_of_app in Hin' as [Hin' | Hin']; [exact (Hout Hin')|].
    pose proof (pushed_new a w) as Hnew. rewrite Forall_forall in Hnew.
    destruct (Hnew _ Hin') as [_ Hfresh]. apply Hfresh. now exists l.
Qed.

Lemma gone_run (v : value) (acts : list Action) (w : World) :
  batcher_inv w -> ref_in (heap w) v -> v ∉ pending w ->
  (v ∉ pending (run acts w)) /\
  (forall p, p ∈ sends (trace (run acts w)) -> v ∈ events p -> p ∈ sends (trace w)).
Proof.
  revert w. induction acts as [|a acts IH]; intros w Hinv Href Hout; [now split|].
  change (run (a :: acts) w) with (run acts (step w a)).
  destruct (gone_step v a w Hinv Href Hout) as [Href' Hout'].
  destruct (IH (step w a) (inv_step a w Hinv) Href' Hout') as [H1 H2].
  split; [exact H1|]. intros p Hp Hv.
  specialize (H2 p Hp Hv).
  destruct (sends_step_held a w Hinv) as (new & Hs & Hheld).
  rewrite Hs in H2. apply elem_of_app in H2 as [H2 | H2]; [exact H2|].
  rewrite Forall_forall in Hheld. exfalso. exact (Hout' (Hheld p H2 v Hv)).
Qed.

(** X19.  An event that has left the batcher does not come back: once an
    event object is neither queued nor in a batch in flight (it was
    delivered, dropped after a failure, or cleared), no execution queues it
    again, and no later call of [sendBatch] carries it. *)
Theorem gone_events_stay_gone (v : value) (acts : list Action) (w : World) :
  reachable w -> ref_in (heap w) v -> v ∉ pending w ->
  (v ∉ pending (run acts w)) /\
  (forall p, p ∈ sends (trace (run acts w)) -> v ∈ events p -> p ∈ sends (trace w)).
Proof. intros Hr. apply gone_run, reachable_inv, Hr. Qed.

(** ** The further properties at sample worlds *)

Lemma literals_booleans : Privacy.JsonBooleans Privacy.literals.
Proof. split; intros []; cbn; congruence. Qed.

Lemma pending_shrinks_or_appends_witness :
  let w := run [Add 1000 demo_sync (VObj 2%positive); Add 1001 demo_sync (VObj 1%positive);
                Flush demo_sync; Add 1002 demo_sync (VObj 2%positive)] demo_callback in
  reachable w /\
  pending w = [VObj 10%positive; VObj 11%positive; VObj 12%positive] /\
  pending (step w (Settle 0 callback_rejects))
    `sublist_of` pending w ++ pushed (Settle 0 callback_rejects) w /\
  pending (step w (Add 1003 demo_sync (VStr "x")))
    `sublist_of` pending w ++ [VObj 13%positive].
Proof.
  cbv zeta. set (w := run _ demo_callback).
  assert (Hr : reachable w) by (unfold w, demo_callback; reached).
  split; [exact Hr|]. split; [reflexivity|]. split.
  - exact (pending_shrinks_or_appends w (Settle 0 callback_rejects) Hr).
  - exact (pending_shrinks_or_appends w (Add 1003 demo_sync (VStr "x")) Hr).
Defined.

Lemma pending_events_distinct_witness :
  let w := run [Add 1000 demo_sync (VObj 2%positive); Add 1001 demo_sync (VObj 2%positive);
                Flush demo_sync; Add 1002 demo_sync (VObj 2%positive)] demo_callback in
  reachable w /\
  pending w = [VObj 10%positive; VObj 11%positive; VObj 12%positive] /\
  NoDup (pending w).
Proof.
  cbv zeta. set (w := run _ demo_callback).
  assert (Hr : reachable w) by (unfold w, demo_callback; reached).
  split; [exact Hr|]. split; [reflexivity|].
  exact (proj1 (pending_events_distinct w Hr)).
Defined.

Lemma sent_batches_well_formed_witness :
  let w := run [Add 1000 demo_sync (VObj 2%positive); Flush demo_sync;
                Settle 0 callback_rejects; Flush demo_sync] demo_callback in
  reachable w /\
  map batchSize (sends (trace w)) = [1; 1] /\
  Forall well_formed (sends (trace w)).
Proof.
  cbv zeta. set (w := run _ demo_callback).
  assert (Hr : reachable w) by (unfold w, demo_callback; reached).
  split; [exact Hr|]. split; [reflexivity|].
  exact (sent_batches_well_formed w Hr).
Defined.


Lemma interval_lives_until_stopped_witness :
  let acts := [Add 1000 demo_sync (VObj 2%positive); Destroy demo_sync;
               Add 1001 demo_sync (VObj 2%positive)] in
  let w := run acts demo_plain in
  Forall no_restart acts /\
  timers w = ∅ /\
  getQueueSize (interval_fires 1 demo_sync w) = 1.
Proof.
  cbv zeta. set (acts := [_; _; _]).
  assert (Hall : Forall no_restart acts) by (repeat constructor).
  destruct (interval_lives_until_stopped demo_host (VStr "") (VStr "") VUndefined VUndefined
              acts Hall) as (_ & Ht & Hfire).
  split; [exact Hall|]. split; [exact Ht|].
  unfold demo_plain. rewrite (Hfire eq_refl). reflexivity.
Defined.

Lemma restart_leaks_timer_witness :
  let w1 := stopBatchInterval (startBatchInterval demo_plain) in
  reachable demo_plain /\
  is_Some (timers demo_plain !! 1%positive) /\
  interval (this w1) = Some 2%positive /\
  timers w1 !! 1%positive = Some (VNum 30000) /\
  timers w1 !! 2%positive = None.
Proof.
  cbv zeta.
  assert (Hr : reachable demo_plain) by (unfold demo_plain; do 5 eexists; exists []; reflexivity).
  assert (Hlive : is_Some (timers demo_plain !! 1%positive)) by (eexists; reflexivity).
  destruct (restart_leaks_timer demo_plain 1%positive demo_sync Hr Hlive)
    as (H1 & _ & H3 & H4 & _).
  split; [exact Hr|]. split; [exact Hlive|]. split; [exact H4|].
  split; [rewrite H1; reflexivity | exact H3].
Defined.

Lemma accepted_batch_posted_again_witness :
  let w := run [Add 1000 demo_sync (VObj 2%positive)] demo_fetch in
  let w2 := flush_resume 0 accepted_without_json (flush demo_sync w) in
  reachable w /\ can_flush w /\
  is_function (onDataCallback (this w)) = false /\
  truthy (apiEndpoint (this w)) = true /\
  JSON_stringify_throws demo_sync (heap w) (queue (this w)) = false /\
  queue (this w2) = [VObj 10%positive] /\
  map events (transported (trace (flush demo_sync w2))) =
    [[VObj 10%positive]; [VObj 10%positive]].
Proof.
  cbv zeta. set (w := run _ demo_fetch).
  assert (Hr : reachable w) by (unfold w, demo_fetch; reached).
  assert (Hgo : can_flush w) by (split; [discriminate | reflexivity]).
  assert (Hser : JSON_stringify_throws demo_sync (heap w) (queue (this w)) = false)
    by reflexivity.
  destruct (accepted_batch_posted_again demo_sync demo_sync w Hr Hgo eq_refl eq_refl
              Hser eq_refl) as (Hq & _ & _).
  split; [exact Hr|]. split; [exact Hgo|]. split; [reflexivity|]. split; [reflexivity|].
  split; [exact Hser|].
  split; [rewrite Hq; reflexivity | reflexivity].
Defined.

Lemma circular_event_blocks_queue_witness :
  let circ : gmap string value := {[ "self" := VObj 5%positive ]} in
  let w := run [HostStore 5%positive circ; Add 1000 demo_sync (VObj 2%positive);
                Add 1001 demo_sync (VObj 5%positive)] demo_fetch in
  let cycles := replicate 3 (demo_sync, all_fulfil) in
  reachable w /\ can_flush w /\
  queue (this w) = [VObj 10%positive; VObj 11%positive] /\
  circular (heap w) (VObj 10%positive) = false /\
  circular (heap w) (VObj 11%positive) = true /\
  queue (this (run (rounds cycles) w)) = [VObj 10%positive; VObj 11%positive] /\
  transport_calls (trace (run (rounds cycles) w)) = [] /\
  length (sends (trace (run (rounds cycles) w))) = 3 /\
  length (errors_logged (trace (run (rounds cycles) w))) = 3.
Proof.
  cbv zeta. set (w := run _ demo_fetch).
  set (cycles := replicate 3 (demo_sync, all_fulfil)).
  assert (Hr : reachable w) by (unfold w, demo_fetch; reached).
  assert (Hgo : can_flush w) by (split; [discriminate | reflexivity]).
  assert (Hin : VObj 11%positive ∈ queue (this w))
    by (apply list_elem_of_further, list_elem_of_here).
  assert (Hlen : length (queue (this w)) <= 25) by (vm_compute; lia).
  destruct (circular_event_blocks_queue cycles w (VObj 11%positive) Hr Hgo eq_refl eq_refl
              Hin eq_refl Hlen) as (Hq & _ & Ht & Hs & He & _).
  split; [exact Hr|]. split; [exact Hgo|]. split; [reflexivity|].
  split; [reflexivity|]. split; [reflexivity|].
  split; [rewrite Hq; reflexivity|]. split; [rewrite Ht; reflexivity|].
  split; [rewrite <- (length_map events), Hs; reflexivity|].
  rewrite He. reflexivity.
Defined.

Lemma small_batch_survives_failures_witness :
  let w := run [Add 1000 demo_sync (VObj 2%positive); Add 1001 demo_sync (VObj 1%positive)]
               demo_callback in
  let cycles := replicate 3 (demo_sync, callback_rejects) in
  reachable w /\ can_flush w /\
  queue (this (run (rounds cycles) w)) = [VObj 10%positive; VObj 11%positive] /\
  length (sends (trace (run (rounds cycles) w))) = 3.
Proof.
  cbv zeta. set (w := run _ demo_callback).
  set (cycles := replicate 3 (demo_sync, callback_rejects)).
  assert (Hr : reachable w) by (unfold w, demo_callback; reached).
  assert (Hgo : can_flush w) by (split; [discriminate | reflexivity]).
  assert (Hlen : length (queue (this w)) <= 25) by (vm_compute; lia).
  assert (Hall : Forall (fun c => (sendBatch_settle (send_state c.1 w) c.2).2 = false)
                   cycles) by (apply Forall_replicate; reflexivity).
  destruct (small_batch_survives_failures cycles w Hr Hgo Hlen Hall) as (Hq & _ & Hs).
  split; [exact Hr|]. split; [exact Hgo|]. split; [rewrite Hq; reflexivity|].
  rewrite <- (length_map events), Hs. reflexivity.
Defined.


Lemma consent_decision_persists_witness :
  let p := @Privacy.constructor Privacy.literals (Privacy.Available ∅ false) []
             (VStr "opt-out") in
  Privacy.hasConsent p = VBool true /\
  Privacy.hasConsent
    (@Privacy.constructor Privacy.literals
       (Privacy.localStorage (@Privacy.optOut Privacy.literals p)) [] (VStr "opt-out"))
  = VBool false.
Proof.
  cbv zeta.
  set (p := @Privacy.constructor Privacy.literals (Privacy.Available ∅ false) [] (VStr "opt-out")).
  split; [reflexivity|].
  exact (proj2 (proj2 (proj2 (proj2 (@consent_decision_persists Privacy.literals
    literals_booleans p ∅ [] (VStr "opt-out") eq_refl eq_refl))))).
Defined.

Lemma no_decision_means_mode_default_witness :
  let ls := Privacy.Available {[ "seo_sdk_consent" := "not json" ]} false in
  @Privacy.no_decision Privacy.literals "seo_sdk_consent" ls /\
  Privacy.hasConsent (@Privacy.constructor Privacy.literals ls [] (VStr "auto")) = VBool true /\
  Privacy.hasConsent (@Privacy.constructor Privacy.literals ls [] VUndefined) = VBool false.
Proof.
  cbv zeta. set (ls := Privacy.Available _ false).
  assert (Hno : @Privacy.no_decision Privacy.literals "seo_sdk_consent" ls)
    by (right; left; reflexivity).
  destruct (@no_decision_means_mode_default Privacy.literals ls [] VNull Hno)
    as (_ & _ & Hauto & Hdef).
  split; [exact Hno|]. split; [exact Hauto | exact Hdef].
Defined.

Lemma consent_not_persisted_without_storage_witness :
  let p := @Privacy.constructor Privacy.literals Privacy.Unavailable [] VUndefined in
  let p' := @Privacy.giveConsent Privacy.literals p in
  Privacy.hasConsent p = VBool false /\
  Privacy.hasConsent p' = VBool true /\
  Privacy.hasConsent (@Privacy.constructor Privacy.literals (Privacy.localStorage p') []
                        VUndefined) = VBool false.
Proof.
  cbv zeta. set (p := @Privacy.constructor Privacy.literals Privacy.Unavailable [] VUndefined).
  destruct (@consent_not_persisted_without_storage Privacy.literals p [] VUndefined
              (or_introl eq_refl) I) as (H1 & _ & _ & H4).
  split; [reflexivity|]. split; [exact H1 | exact H4].
Defined.

Lemma clearConsent_edges_witness :
  let given := @Privacy.giveConsent Privacy.literals
                 (@Privacy.constructor Privacy.literals (Privacy.Available ∅ false) [] VUndefined) in
  let lost := @Privacy.giveConsent Privacy.literals
                (@Privacy.constructor Privacy.literals Privacy.Unavailable [] VUndefined) in
  Privacy.hasConsent (Privacy.clearConsent given) = VBool false /\
  Privacy.hasConsent
    (@Privacy.constructor Privacy.literals
       (Privacy.localStorage (Privacy.clearConsent given)) [] (VStr "opt-out")) = VBool true /\
  Privacy.hasConsent (Privacy.clearConsent lost) = VBool true.
Proof.
  cbv zeta.
  set (given := @Privacy.giveConsent Privacy.literals _).
  set (lost := @Privacy.giveConsent Privacy.literals
                 (@Privacy.constructor Privacy.literals Privacy.Unavailable [] VUndefined)).
  destruct (@clearConsent_edges Privacy.literals given [] VNull eq_refl) as (_ & Hthere).
  destruct Hthere as (H1 & _ & _ & H4); [discriminate|].
  destruct (@clearConsent_edges Privacy.literals lost [] VNull eq_refl) as (Hgone & _).
  destruct (Hgone eq_refl) as (H5 & _).
  split; [exact H1|]. split; [exact H4|]. rewrite H5. reflexivity.
Defined.

Lemma sdk_starts_by_decision_or_mode_witness :
  let refused := Privacy.Available {[ "seo_sdk_consent" := "false" ]} false in
  @sdk_starts Privacy.literals refused [] {[ "privacyMode" := VStr "opt-out" ]} = false /\
  @sdk_starts Privacy.literals (Privacy.Available ∅ false) []
    {[ "privacyMode" := VStr "opt-out" ]} = true /\
  @sdk_starts Privacy.literals (Privacy.Available ∅ false) [] ∅ = false.
Proof.
  cbv zeta.
  destruct (@sdk_starts_by_decision_or_mode Privacy.literals literals_booleans
              (Privacy.Available {[ "seo_sdk_consent" := "false" ]} false) []
              {[ "privacyMode" := VStr "opt-out" ]}) as (Hstored & _).
  destruct (@sdk_starts_by_decision_or_mode Privacy.literals literals_booleans
              (Privacy.Available ∅ false) [] {[ "privacyMode" := VStr "opt-out" ]})
    as (_ & Hmode).
  destruct (@sdk_starts_by_decision_or_mode Privacy.literals literals_booleans
              (Privacy.Available ∅ false) [] ∅) as (_ & Hnone).
  split; [exact (Hstored _ _ false eq_refl eq_refl)|].
  split; [rewrite (proj1 (Hmode I)); reflexivity|].
  exact (proj2 (Hnone I) eq_refl).
Defined.

Lemma engagement_events_share_tracker_data_witness :
  let w1 := engagement_tick (VStr "session_1") demo_tracker 1000 1001 1002 demo_sync
              demo_plain in
  let w2 := engagement_tick (VStr "session_1") demo_tracker 11000 11001 11002 demo_sync w1 in
  reachable demo_plain /\
  length (pending w2) = 2 /\
  pending w2 = [VObj 12%positive; VObj 15%positive] /\
  field (heap w2) (VObj 12%positive) "timestamp" = VNum 1001 /\
  field (heap w2) (field (heap w2) (field (heap w2) (VObj 12%positive) "engagement")
                     "engagement") "timeOnPage" = VNum 10600.
Proof.
  cbv zeta.
  assert (Hr : reachable demo_plain) by (unfold demo_plain; do 5 eexists; exists []; reflexivity).
  destruct (engagement_events_share_tracker_data (VStr "session_1") demo_tracker
              1000 1001 1002 11000 11001 11002 demo_sync demo_sync demo_plain Hr)
    as (ev1 & ev2 & Hp & _).
  split; [exact Hr|]. split; [rewrite Hp; reflexivity|].
  split; [vm_compute; reflexivity|]. split; vm_compute; reflexivity.
Defined.

Lemma sdk_destroy_keeps_batcher_interval_witness :
  let s := demo_sdk (run [Add 1000 demo_sync (VObj 2%positive)] demo_plain) in
  let s' := sdk_destroy demo_sync s in
  is_Some (timers (dataBatcher s) !! 1%positive) /\
  (Some 1%positive ∉ sdk_handles s) /\
  can_flush (dataBatcher s) /\
  getQueueSize (dataBatcher s) = 1 /\
  getQueueSize (dataBatcher s') = 0 /\
  map events (sends (trace (dataBatcher s'))) = [[VObj 10%positive]] /\
  intervals s' = ∅ /\
  timers (dataBatcher s') !! 1%positive = Some (VNum 30000) /\
  isInitialized s' = false.
Proof.
  cbv zeta. set (s := demo_sdk _).
  assert (Hlive : is_Some (timers (dataBatcher s) !! 1%positive)) by (eexists; reflexivity).
  assert (Hnot : Some 1%positive ∉ sdk_handles s).
  { intros Hin. repeat (apply elem_of_cons in Hin as [Hin | Hin]; [discriminate|]).
    now apply elem_of_nil in Hin. }
  assert (Hgo : can_flush (dataBatcher s)) by (split; [discriminate | reflexivity]).
  destruct (sdk_destroy_keeps_batcher_interval demo_sync s 1%positive Hlive Hnot)
    as (_ & _ & _ & Hflush & Ht & _ & _ & Hi & _).
  destruct (Hflush Hgo) as (Hq & _ & Hs).
  split; [exact Hlive|]. split; [exact Hnot|]. split; [exact Hgo|]. split; [reflexivity|].
  split; [unfold getQueueSize; now rewrite Hq|].
  split; [rewrite Hs; reflexivity|]. split; [reflexivity|].
  split; [rewrite Ht; reflexivity | exact Hi].
Defined.

Lemma optOut_sends_queue_witness :
  let s := demo_sdk (run [Add 1000 demo_sync (VObj 2%positive)] demo_fetch) in
  let s' := @sdk_optOut Privacy.literals demo_sync s in
  can_flush (dataBatcher s) /\
  storage s' = Privacy.Available {[ "seo_sdk_consent" := "false" ]} false /\
  Privacy.consentGiven (privacyManager s') = VBool false /\
  map events (transported (trace (dataBatcher s'))) = [[VObj 10%positive]].
Proof.
  cbv zeta. set (s := demo_sdk _).
  assert (Hgo : can_flush (dataBatcher s)) by (split; [discriminate | reflexivity]).
  destruct (@optOut_sends_queue Privacy.literals demo_sync s Hgo) as (Hc & _).
  split; [exact Hgo|]. split; [reflexivity|]. split; [exact Hc | reflexivity].
Defined.

Lemma gone_events_stay_gone_witness :
  let w := run [Add 1000 demo_sync (VObj 2%positive); Flush demo_sync; Settle 0 all_fulfil]
               demo_callback in
  let acts := [Add 1001 demo_sync (VObj 2%positive); Flush demo_sync;
               Settle 0 callback_rejects; Flush demo_sync] in
  reachable w /\
  ref_in (heap w) (VObj 10%positive) /\
  (VObj 10%positive ∉ pending w) /\
  map events (sends (trace w)) = [[VObj 10%positive]] /\
  map events (sends (trace (run acts w))) =
    [[VObj 10%positive]; [VObj 11%positive]; [VObj 11%positive]] /\
  (VObj 10%positive ∉ pending (run acts w)).
Proof.
  cbv zeta. set (w := run _ demo_callback). set (acts := [_; _; _; _]).
  assert (Hr : reachable w) by (unfold w, demo_callback; reached).
  assert (Href : ref_in (heap w) (VObj 10%positive)).
  { exists 10%positive. split; [reflexivity|]. apply elem_of_dom. eexists. reflexivity. }
  assert (Hout : VObj 10%positive ∉ pending w) by (intros Hin; now apply elem_of_nil in Hin).
  split; [exact Hr|]. split; [exact Href|]. split; [exact Hout|].
  split; [reflexivity|]. split; [reflexivity|].
  exact (proj1 (gone_events_stay_gone (VObj 10%positive) acts w Hr Href Hout)).
Defined.
